(** * gpii-glob: include/exclude glob resolution over a filesystem subtree

    A shallow embedding of [gpii.glob] (the matching-and-pruning engine of
    the package) together with the properties its specification states.

    JavaScript strings are modelled as [string]: the sequence of 8-bit
    characters that is the UTF-8 encoding of the text.  Arrays are modelled
    as [list], a missing optional argument as [None] (or [false] for a
    boolean flag, since [undefined] is falsy). *)

From Stdlib Require Import String Ascii List Bool Arith NArith Lia Permutation Sorted.
From Stdlib Require OrderedTypeEx.
Import ListNotations.
Local Open Scope string_scope.
Local Open Scope list_scope.

(** ** JavaScript string primitives used by the package *)

Module JS.

(** [s.indexOf(needle)]: position of the first occurrence, [None] for -1. *)
Definition indexOf (s needle : string) : option nat := String.index 0 needle s.

(** [s.indexOf(needle) === 0] *)
Definition indexOf_is_0 (s needle : string) : bool :=
  match indexOf s needle with
  | Some 0 => true
  | _ => false
  end.

(** [s.indexOf(needle) !== -1] *)
Definition indexOf_found (s needle : string) : bool :=
  match indexOf s needle with
  | Some _ => true
  | None => false
  end.

(** [s.substring(1)] *)
Definition substring1 (s : string) : string :=
  String.substring 1 (String.length s - 1) s.

(** [s.split(sep)] for a one-character separator: never the empty array. *)
Fixpoint split (sep : ascii) (s : string) : list string :=
  match s with
  | EmptyString => [EmptyString]
  | String c s' =>
      if Ascii.eqb c sep then EmptyString :: split sep s'
      else match split sep s' with
           | [] => [String c EmptyString]
           | seg :: segs => String c seg :: segs
           end
  end.

(** [segments.join(sep)] *)
Definition join (sep : string) (segments : list string) : string :=
  String.concat sep segments.

(** [array.length] used as a condition. *)
Definition nonempty {A : Type} (l : list A) : bool :=
  match l with
  | [] => false
  | _ :: _ => true
  end.

(** [segments.slice(n)] *)
Definition slice {A : Type} (n : nat) (l : list A) : list A := skipn n l.

End JS.

(** ** Pattern classifier *)

(** [gpii.glob.positivePattern] *)
Definition positivePattern (pattern : string) : string :=
  if JS.indexOf_is_0 pattern "!" then JS.substring1 pattern else pattern.

(** [gpii.glob.positivePatterns] *)
Definition positivePatterns (patterns : list string) : list string :=
  filter (fun pattern => negb (JS.indexOf_is_0 pattern "!")) patterns.

(** [gpii.glob.negativePatterns] *)
Definition negativePatterns (patterns : list string) : list string :=
  map (fun pattern => JS.substring1 pattern)
      (filter (fun pattern => JS.indexOf_is_0 pattern "!") patterns).

(** ** Regular expressions

    The fragment of JavaScript regular expressions that the package's
    literals use: characters, character classes with ranges, sequencing,
    an optional group and the two anchors. *)

Module Regex.

Inductive item : Type :=
| One (c : ascii)
| Range (lo hi : ascii).

Inductive re : Type :=
| Chr (c : ascii)
| Cls (items : list item)
| Seq (r1 r2 : re)
| Opt (r : re)
| Bol
| Eol.

Definition in_item (c : ascii) (i : item) : bool :=
  match i with
  | One c' => Ascii.eqb c c'
  | Range lo hi =>
      Nat.leb (nat_of_ascii lo) (nat_of_ascii c) && Nat.leb (nat_of_ascii c) (nat_of_ascii hi)
  end.

(** All the ways [r] can match at the head of [s] (which starts at offset
    [pos] of the subject): the offset and the text left after each match. *)
Fixpoint matches_at (r : re) (pos : nat) (s : string) : list (nat * string) :=
  match r with
  | Chr c =>
      match s with
      | String c' s' => if Ascii.eqb c c' then [(S pos, s')] else []
      | EmptyString => []
      end
  | Cls items =>
      match s with
      | String c' s' => if existsb (in_item c') items then [(S pos, s')] else []
      | EmptyString => []
      end
  | Seq r1 r2 =>
      flat_map (fun m => matches_at r2 (fst m) (snd m)) (matches_at r1 pos s)
  | Opt r' => matches_at r' pos s ++ [(pos, s)]
  | Bol => if Nat.eqb pos 0 then [(pos, s)] else []
  | Eol =>
      match s with
      | EmptyString => [(pos, s)]
      | String _ _ => []
      end
  end.

Fixpoint search (r : re) (pos : nat) (s : string) : bool :=
  if JS.nonempty (matches_at r pos s) then true
  else match s with
       | EmptyString => false
       | String _ s' => search r (S pos) s'
       end.

(** Truthiness of [s.match(r)] for a regular expression without flags. *)
Definition test (r : re) (s : string) : bool := search r 0 s.

Fixpoint split_runs_from (is_sep : ascii -> bool) (prev_sep : bool) (s : string)
  : list string :=
  match s with
  | EmptyString => [EmptyString]
  | String c s' =>
      if is_sep c then
        if prev_sep then split_runs_from is_sep true s'
        else EmptyString :: split_runs_from is_sep true s'
      else match split_runs_from is_sep false s' with
           | [] => [String c EmptyString]
           | seg :: segs => String c seg :: segs
           end
  end.

(** [s.split(/[items]+/)]: split at every maximal run of class characters. *)
Definition split_runs (items : list item) (s : string) : list string :=
  split_runs_from (fun c => existsb (in_item c) items) false s.

End Regex.

(** ** Pattern validator *)

(** An invalid-pattern rule: the message and the test its regular expression
    performs.  Custom rules may carry any regular expression, hence any test. *)
Record Rule : Type := mkRule {
  message : string;
  pattern : string -> bool
}.

(** A rule mapping: the object's own keys in insertion order. *)
Definition Rules : Type := list (string * Rule).

Import Regex.

Definition noLeadingWildcard : Rule :=
  {| message := "contains a leading wildcard";
     (* /^(\.\/)?\*\*/ *)
     pattern := Regex.test
       (Seq Bol (Seq (Opt (Seq (Chr ".") (Chr "/"))) (Seq (Chr "*") (Chr "*")))) |}.

Definition noWindowsSeparator : Rule :=
  {| message := "contains a windows separator";
     (* /\\/ *)
     pattern := Regex.test (Chr "\") |}.

Definition noParentDir : Rule :=
  {| message := "contains a reference to a parent directory";
     (* /^\.\./ *)
     pattern := Regex.test (Seq Bol (Seq (Chr ".") (Chr "."))) |}.

Definition noRegexp : Rule :=
  {| message := "contains a character used to define a regular expression";
     (* /[\[\](){}|]/ *)
     pattern := Regex.test
       (Cls [One "["; One "]"; One "("; One ")"; One "{"; One "}"; One "|"]) |}.

Definition noWholeRoot : Rule :=
  {| message := "contains a reference to the whole of the root directory";
     (* /^\.\/$/ *)
     pattern := Regex.test (Seq Bol (Seq (Chr ".") (Seq (Chr "/") Eol))) |}.

(** [gpii.glob.invalidGlobRules] *)
Definition invalidGlobRules : Rules :=
  [ ("noLeadingWildcard", noLeadingWildcard);
    ("noWindowsSeparator", noWindowsSeparator);
    ("noParentDir", noParentDir);
    ("noRegexp", noRegexp);
    ("noWholeRoot", noWholeRoot) ].

(** A violation record [{glob, error}]. *)
Record Violation : Type := mkViolation {
  glob : string;
  error : string
}.

(** [gpii.glob.validatePattern]; [rules = None] is the omitted argument. *)
Definition validatePattern (pattern_ : string) (rules : option Rules) : list Violation :=
  let positivePattern_ := positivePattern pattern_ in
  let rules := match rules with Some r => r | None => invalidGlobRules end in
  fold_left
    (fun failures (entry : string * Rule) =>
       let invalidGlobRule := snd entry in
       if pattern invalidGlobRule positivePattern_
       then failures ++ [ {| glob := positivePattern_; error := message invalidGlobRule |} ]
       else failures)
    rules [].

(** [gpii.glob.validatePatternArray] *)
Definition validatePatternArray (patternArray : list string) (rules : option Rules)
  : list Violation :=
  fold_left
    (fun failures pattern_ => failures ++ validatePattern pattern_ rules)
    patternArray [].

(** The line [gpii.glob.logInvalidRuleFeedback] logs for one violation. *)
Definition feedbackLine (violation : Violation) : string :=
  ("ERROR: Pattern '" ++ glob violation ++ "' " ++ error violation ++ ".")%string.

(** ** Single-pattern matcher *)

(** The minimatch options the package's callers and tests set; every other
    toggle keeps its default. *)
Record MinimatchOptions : Type := mkOptions {
  dot : bool;
  matchBase : bool
}.

(** The options object [{}]. *)
Definition noOptions : MinimatchOptions := {| dot := false; matchBase := false |}.

(** The external glob-matching primitive [minimatch(path, pattern, options)],
    consumed as a black box. *)
Class Minimatch : Type :=
  minimatch : string -> string -> MinimatchOptions -> bool.

Module Glob.

(** The [minimatch] library is not part of the package's sources.  This
    module is the conventional glob algorithm the spec describes, on
    patterns made of literal characters, [*] (any run of characters inside
    one path segment) and [**] (zero or more whole segments), with the [dot]
    option (a segment with a leading dot is matched by a wildcard only when
    set) and the [matchBase] option (a pattern without separator is matched
    against the last segment).  Character classes, braces, [?], comments and
    negation are outside the model. *)

(** Modelled from the spec: [minimatch], one pattern segment without the
    [dot] rule; [*] stands for any run of characters. *)
Fixpoint wildcard (pat s : string) : bool :=
  match pat with
  | EmptyString =>
      match s with
      | EmptyString => true
      | String _ _ => false
      end
  | String c pat' =>
      if Ascii.eqb c "*" then
        (fix skip (s : string) : bool :=
           wildcard pat' s ||
           match s with
           | EmptyString => false
           | String _ s' => skip s'
           end) s
      else
        match s with
        | String c' s' => Ascii.eqb c c' && wildcard pat' s'
        | EmptyString => false
        end
  end.

Definition leading_dot (s : string) : bool :=
  match s with
  | String c _ => Ascii.eqb c "."
  | EmptyString => false
  end.

(** Modelled from the spec: [minimatch], one pattern segment against one
    path segment. *)
Definition segment (options : MinimatchOptions) (pat s : string) : bool :=
  if leading_dot s && negb (dot options) && negb (leading_dot pat) then false
  else wildcard pat s.

(** Modelled from the spec: [minimatch], the pattern's segments against the
    path's; [**] stands for zero or more segments. *)
Fixpoint segments (options : MinimatchOptions) (pats file : list string) : bool :=
  match pats with
  | [] =>
      match file with
      | [] => true
      | _ :: _ => false
      end
  | pat :: pats' =>
      if String.eqb pat "**" then
        (fix globstar (file : list string) : bool :=
           segments options pats' file ||
           match file with
           | [] => false
           | s :: file' =>
               (negb (leading_dot s) || dot options) && globstar file'
           end) file
      else
        match file with
        | s :: file' => segment options pat s && segments options pats' file'
        | [] => false
        end
  end.

Definition basename (path : string) : string :=
  last (JS.split "/" path) EmptyString.

(** Modelled from the spec: [minimatch(path, pattern, options)]. *)
Definition matches (path pat : string) (options : MinimatchOptions) : bool :=
  if matchBase options && negb (JS.indexOf_found pat "/")
  then segment options pat (basename path)
  else segments options (JS.split "/" pat) (JS.split "/" path).

End Glob.

(** [===] on values that are a string or [undefined]. *)
Definition strict_eq (x y : option string) : bool :=
  match x, y with
  | Some a, Some b => String.eqb a b
  | None, None => true
  | _, _ => false
  end.

(** The [for] loop of [gpii.glob.dirMightMatch]: [a] is the loop index and
    [remaining] the number of iterations left, [pathSegments.length - a]. *)
Fixpoint dirMightMatch_loop (patternSegments pathSegments : list string)
         (a remaining : nat) : bool :=
  match remaining with
  | 0 => true
  | S remaining' =>
      let patternSegment := nth_error patternSegments a in
      if strict_eq patternSegment (Some "**") then true
      else
        let pathSegment := nth_error pathSegments a in
        if negb (strict_eq pathSegment patternSegment) then false
        else dirMightMatch_loop patternSegments pathSegments (S a) remaining'
  end.

(** [gpii.glob.dirMightMatch] *)
Definition dirMightMatch (pathToDir pattern_ : string) : bool :=
  if JS.indexOf_found pattern_ "/" then
    let patternSegments := JS.split "/" pattern_ in
    let pathSegments := JS.split "/" pathToDir in
    dirMightMatch_loop patternSegments pathSegments 0 (List.length pathSegments)
  else true.

Section Matcher.

Context {M : Minimatch}.

(** [gpii.glob.matchesSinglePattern]; an omitted [isDir] is [false]. *)
Definition matchesSinglePattern (pathToMatch pattern_ : string)
           (minimatchOptions : option MinimatchOptions) (isDir : bool) : bool :=
  let minimatchOptions :=
    match minimatchOptions with
    | Some o => o
    | None => noOptions
    end in
  if isDir then dirMightMatch pathToMatch pattern_
  else minimatch pathToMatch pattern_ minimatchOptions.

End Matcher.

(** ** Path rooting *)

Module Path.

Definition isAbsolute (path : string) : bool :=
  match path with
  | String c _ => Ascii.eqb c "/"
  | EmptyString => false
  end.

(** Modelled from the spec: [path.posix] belongs to Node, not to the
    package, and the spec only says that patterns are resolved against the
    root; the model follows Node's algorithm.  The segment loop of
    [normalizeString]: drop empty and [.] segments, let [..] remove the
    segment before it; where there is none to remove [..] is dropped, or
    kept when [allowAboveRoot].  [stack] holds the segments kept so far,
    last one first. *)
Fixpoint normalize_segments (allowAboveRoot : bool) (stack todo : list string)
  : list string :=
  match todo with
  | [] => rev stack
  | seg :: todo' =>
      if String.eqb seg "" || String.eqb seg "." then
        normalize_segments allowAboveRoot stack todo'
      else if String.eqb seg ".." then
        match stack with
        | top :: stack' =>
            if String.eqb top ".." then
              if allowAboveRoot
              then normalize_segments allowAboveRoot (seg :: stack) todo'
              else normalize_segments allowAboveRoot stack todo'
            else normalize_segments allowAboveRoot stack' todo'
        | [] =>
            if allowAboveRoot
            then normalize_segments allowAboveRoot [seg] todo'
            else normalize_segments allowAboveRoot [] todo'
        end
      else normalize_segments allowAboveRoot (seg :: stack) todo'
  end.

(** Modelled from the spec: [normalizeString(path, allowAboveRoot, "/")] of
    Node. *)
Definition normalizeString (path : string) (allowAboveRoot : bool) : string :=
  JS.join "/" (normalize_segments allowAboveRoot [] (JS.split "/" path)).

(** Modelled from the spec: the right-to-left loop of Node's [resolve].
    [args] holds the arguments still to visit, last one first, ending with
    the working directory; empty arguments are skipped and the loop stops at
    the first absolute one. *)
Fixpoint resolve_loop (args : list string) (resolvedPath : string) : string * bool :=
  match args with
  | [] => (resolvedPath, false)
  | path :: args' =>
      if String.eqb path "" then resolve_loop args' resolvedPath
      else
        let resolvedPath := (path ++ "/" ++ resolvedPath)%string in
        if isAbsolute path then (resolvedPath, true)
        else resolve_loop args' resolvedPath
  end.

(** Modelled from the spec: [path.posix.resolve(...args)] of Node, with the
    process working directory [cwd]. *)
Definition resolve (cwd : string) (args : list string) : string :=
  let (resolvedPath, resolvedAbsolute) := resolve_loop (rev args ++ [cwd]) "" in
  let normalized := normalizeString resolvedPath (negb resolvedAbsolute) in
  if resolvedAbsolute then ("/" ++ normalized)%string
  else if String.eqb normalized "" then "." else normalized.

End Path.

(** [gpii.glob.sanitisePath] *)
Definition sanitisePath (rawPath : string) : string :=
  (* rawPath.match(/[\:\\]/) *)
  if Regex.test (Cls [One ":"; One "\"]) rawPath then
    (* rawPath.split(/[\/\\]+/) *)
    let pathSegments := Regex.split_runs [One "/"; One "\"] rawPath in
    let first := nth 0 pathSegments "" in
    (* pathSegments[0].match(/^[a-zA-Z]:$/) *)
    let firstSegment :=
      if Regex.test (Seq Bol (Seq (Cls [Range "a" "z"; Range "A" "Z"]) (Seq (Chr ":") Eol)))
                    first
      then "" else first in
    let sanitisedSegments := [firstSegment] ++ JS.slice 1 pathSegments in
    JS.join "/" sanitisedSegments
  else rawPath.

(** The callback [gpii.glob.addPathToPatterns] applies to each pattern.
    [patternSegments\[0\]] and [patternSegments\[1\]] are read only when the
    array has more than one element. *)
Definition addPathToPattern (cwd sanitisedPath pattern_ : string) : string :=
  let positivePattern_ := positivePattern pattern_ in
  let isNegated := negb (String.eqb positivePattern_ pattern_) in
  let patternSegments := JS.split "/" positivePattern_ in
  if Nat.ltb 1 (List.length patternSegments) then
    let isFullPath := String.eqb (nth 0 patternSegments "") "" in
    let firstSegment :=
      if isFullPath then ("/" ++ nth 1 patternSegments "")%string
      else nth 0 patternSegments "" in
    let remainingSegments := JS.slice (if isFullPath then 2 else 1) patternSegments in
    let resolvedPath :=
      Path.resolve cwd [sanitisedPath; firstSegment; JS.join "/" remainingSegments] in
    ((if isNegated then "!" else "") ++ resolvedPath)%string
  else pattern_.

(** [gpii.glob.addPathToPatterns], in a process whose working directory is [cwd]. *)
Definition addPathToPatterns (cwd rootPath : string) (patterns : list string)
  : list string :=
  let sanitisedPath := sanitisePath rootPath in
  map (addPathToPattern cwd sanitisedPath) patterns.

(** ** The host: filesystem, log and failures *)

(** What [fs.statSync(path)] tells about an entry: [isDirectory()] and
    [isFile()] are both false for a socket, a FIFO or a device. *)
Inductive Kind : Type := KFile | KDirectory | KOther.

Definition isDirectory (stats : Kind) : bool :=
  match stats with
  | KDirectory => true
  | _ => false
  end.

Definition isFile (stats : Kind) : bool :=
  match stats with
  | KFile => true
  | _ => false
  end.

(** A static snapshot of what the process sees.  [readdirSync] and [statSync]
    answer [None] where Node raises (no such entry, permission denied). *)
Record Host : Type := mkHost {
  cwd : string;
  resolvePath : string -> string;          (* fluid.module.resolvePath *)
  readdirSync : string -> option (list string);
  statSync : string -> option Kind
}.

Inductive Event : Type :=
| Logged (line : string)        (* fluid.log *)
| ReadDir (path : string)       (* fs.readdirSync *)
| Stat (path : string).         (* fs.statSync *)

Inductive Exception : Type :=
| FluidFailure (msg : string)   (* fluid.fail *)
| FsFailure (path : string).    (* an error raised by fs *)

Inductive Outcome (A : Type) : Type :=
| Returned (a : A)
| Threw (e : Exception)
| OutOfFuel.

Arguments Returned {A} a.
Arguments Threw {A} e.
Arguments OutOfFuel {A}.

(** A computation reads the host and yields the events it performed, in
    order, and how it ended. *)
Definition Eff (A : Type) : Type := Host -> list Event * Outcome A.

Definition ret {A : Type} (a : A) : Eff A := fun _ => ([], Returned a).

Definition bind {A B : Type} (m : Eff A) (k : A -> Eff B) : Eff B :=
  fun host =>
    match m host with
    | (events, Returned a) =>
        let (events', outcome) := k a host in (events ++ events', outcome)
    | (events, Threw e) => (events, Threw e)
    | (events, OutOfFuel) => (events, OutOfFuel)
    end.

Declare Scope eff_scope.
Delimit Scope eff_scope with eff.
Notation "x <- m ;; k" := (bind m (fun x => k))
  (at level 61, m at next level, right associativity) : eff_scope.
Notation "m ;; k" := (bind m (fun _ => k))
  (at level 61, right associativity) : eff_scope.
Local Open Scope eff_scope.

Definition ask {A : Type} (field : Host -> A) : Eff A :=
  fun host => ([], Returned (field host)).

Definition fluid_log (line : string) : Eff unit :=
  fun _ => ([Logged line], Returned tt).

Definition fluid_fail {A : Type} (msg : string) : Eff A :=
  fun _ => ([], Threw (FluidFailure msg)).

Definition fs_readdirSync (path : string) : Eff (list string) :=
  fun host =>
    ([ReadDir path],
     match readdirSync host path with
     | Some names => Returned names
     | None => Threw (FsFailure path)
     end).

Definition fs_statSync (path : string) : Eff Kind :=
  fun host =>
    ([Stat path],
     match statSync host path with
     | Some stats => Returned stats
     | None => Threw (FsFailure path)
     end).

Definition out_of_fuel {A : Type} : Eff A := fun _ => ([], OutOfFuel).

(** [fluid.each(list, fn)] where [fn] updates a variable of the enclosing
    function: the variable is threaded through as [acc]. *)
Fixpoint each {A B : Type} (l : list A) (fn : B -> A -> Eff B) (acc : B) : Eff B :=
  match l with
  | [] => ret acc
  | x :: l' => acc' <- fn acc x ;; each l' fn acc'
  end.

(** [gpii.glob.logInvalidRuleFeedback] *)
Definition logInvalidRuleFeedback (violations : list Violation) : Eff unit :=
  each violations (fun _ violation => fluid_log (feedbackLine violation)) tt.

(** ** Strings as JavaScript compares them *)

(** The package looks into its strings only for ASCII characters (the
    separators, the negation marker, the colon and the characters of the
    rules), which UTF-8 keeps as single bytes, so that the bytes serve for
    everything but the comparison of two strings: [Array.prototype.sort]
    with no comparator puts strings in the order of their UTF-16 code
    units, which is not the order of their bytes. *)
Module UTF16.

Definition byte (c : ascii) : N := N_of_ascii c.

(** What a continuation byte carries: its low six bits. *)
Definition payload (c : ascii) : N := N.land (byte c) 0x3F.

(** The code units of a code point: itself in the basic plane, a pair of
    surrogates above it. *)
Definition of_code_point (cp : N) : list N :=
  if (cp <? 0x10000)%N then [cp]
  else [ (0xD800 + N.shiftr (cp - 0x10000) 10)%N;
         (0xDC00 + N.land (cp - 0x10000) 0x3FF)%N ].

(** The code units of the text that the bytes of [s] encode: one, two,
    three or four bytes make a code point.  A byte that can begin no
    character, or a character cut short by the end of the string, stands
    for U+FFFD, the character a decoder puts in its place. *)
Fixpoint code_units (s : string) : list N :=
  match s with
  | EmptyString => []
  | String b0 s1 =>
      if (byte b0 <? 0x80)%N then byte b0 :: code_units s1
      else if (byte b0 <? 0xC0)%N then 0xFFFD%N :: code_units s1
      else if (byte b0 <? 0xE0)%N then
        match s1 with
        | String b1 s2 =>
            of_code_point (N.shiftl (N.land (byte b0) 0x1F) 6 + payload b1)
            ++ code_units s2
        | _ => [0xFFFD%N]
        end
      else if (byte b0 <? 0xF0)%N then
        match s1 with
        | String b1 (String b2 s3) =>
            of_code_point (N.shiftl (N.land (byte b0) 0x0F) 12
                           + N.shiftl (payload b1) 6 + payload b2)
            ++ code_units s3
        | _ => [0xFFFD%N]
        end
      else if (byte b0 <? 0xF8)%N then
        match s1 with
        | String b1 (String b2 (String b3 s4)) =>
            of_code_point (N.shiftl (N.land (byte b0) 0x07) 18
                           + N.shiftl (payload b1) 12
                           + N.shiftl (payload b2) 6 + payload b3)
            ++ code_units s4
        | _ => [0xFFFD%N]
        end
      else 0xFFFD%N :: code_units s1
  end.

(** Code unit by code unit; a proper prefix comes first. *)
Fixpoint compare_units (a b : list N) : comparison :=
  match a, b with
  | [], [] => Eq
  | [], _ :: _ => Lt
  | _ :: _, [] => Gt
  | x :: a', y :: b' =>
      match (x ?= y)%N with
      | Eq => compare_units a' b'
      | c => c
      end
  end.

(** The comparison of two strings.  Strings with the same code units are
    the same JavaScript string; where two [string]s that are not
    well-formed UTF-8 have the same code units, their bytes keep them
    apart. *)
Definition compare (a b : string) : comparison :=
  match compare_units (code_units a) (code_units b) with
  | Eq => String.compare a b
  | c => c
  end.

(** [a] does not come after [b]. *)
Definition leb (a b : string) : bool :=
  match compare a b with
  | Gt => false
  | _ => true
  end.

End UTF16.

(** [array.sort()]: ascending order of the strings' UTF-16 code units. *)
Fixpoint sort_insert (x : string) (sorted : list string) : list string :=
  match sorted with
  | [] => [x]
  | y :: sorted' =>
      if UTF16.leb x y then x :: sorted else y :: sort_insert x sorted'
  end.

Definition sort (l : list string) : list string := fold_right sort_insert [] l.

(** ** Path-set filter and recursive scanner *)

Section Scanner.

Context {M : Minimatch}.

(** [fluid.find(patterns, p => matchesSinglePattern(...) || undefined)] is
    truthy exactly when some pattern matches. *)
Definition find_match (patterns : list string) (singlePath : string)
           (minimatchOptions : option MinimatchOptions) (isDir : bool) : bool :=
  existsb (fun pattern_ =>
             matchesSinglePattern singlePath pattern_ minimatchOptions isDir)
          patterns.

(** The callback [gpii.glob.filterPaths] runs on each path; [matchingPaths]
    is the array it pushes to. *)
Definition filterEntry (positiveIncludes negativeIncludes
                        positiveExcludes negativeExcludes : list string)
           (minimatchOptions : option MinimatchOptions)
           (matchingPaths : list string) (singlePath : string)
  : Eff (list string) :=
  stats <- fs_statSync singlePath ;;
  let isDir := isDirectory stats in
  let matchesPositiveInclude :=
    find_match positiveIncludes singlePath minimatchOptions isDir in
  if matchesPositiveInclude then
    (* Check negated excludes for a match. *)
    let matchesNegatedExclude :=
      find_match negativeExcludes singlePath minimatchOptions isDir in
    (* Negated excludes trump excludes and negated includes. *)
    if matchesNegatedExclude then ret (matchingPaths ++ [singlePath])
    else
      (* Check negated includes and regular excludes together;
         excludes do not use the special handling for directories. *)
      let combinedExcludes := negativeIncludes ++ positiveExcludes in
      let matchesExclude :=
        find_match combinedExcludes singlePath minimatchOptions false in
      if negb matchesExclude then ret (matchingPaths ++ [singlePath])
      else ret matchingPaths
  else ret matchingPaths.

(** [gpii.glob.filterPaths] *)
Definition filterPaths (dirPaths includes excludes : list string)
           (minimatchOptions : option MinimatchOptions) : Eff (list string) :=
  let positiveIncludes := positivePatterns includes in
  let negativeIncludes := negativePatterns includes in
  let positiveExcludes := positivePatterns excludes in
  let negativeExcludes := negativePatterns excludes in
  each dirPaths
       (filterEntry positiveIncludes negativeIncludes
                    positiveExcludes negativeExcludes minimatchOptions)
       [].

(** The callback [gpii.glob.scanSingleDir] runs on each allowed path;
    [scan] is the recursive call and [matchingPaths] the array it grows. *)
Definition scanEntry (scan : string -> Eff (list string))
           (matchingPaths : list string) (singlePath : string)
  : Eff (list string) :=
  itemStats <- fs_statSync singlePath ;;
  if isDirectory itemStats then
    subMatches <- scan singlePath ;;
    if JS.nonempty subMatches then ret (matchingPaths ++ subMatches)
    else ret matchingPaths
  else if isFile itemStats then ret (matchingPaths ++ [singlePath])
  else ret matchingPaths.

(** [gpii.glob.scanSingleDir]; [fuel] bounds the depth of the recursion. *)
Fixpoint scanSingleDir (fuel : nat) (dirPath : string)
         (includes excludes : list string)
         (minimatchOptions : option MinimatchOptions) : Eff (list string) :=
  match fuel with
  | 0 => out_of_fuel
  | S fuel' =>
      names <- fs_readdirSync dirPath ;;
      here <- ask cwd ;;
      let dirPaths :=
        sort (map (fun subPath => Path.resolve here [dirPath; subPath]) names) in
      (* Check to see if this path should be included or excluded *)
      allowedPaths <- filterPaths dirPaths includes excludes minimatchOptions ;;
      each allowedPaths
           (scanEntry (fun singlePath =>
                         scanSingleDir fuel' singlePath includes excludes
                                       minimatchOptions))
           []
  end.

(** [gpii.glob.findFiles]; [rules = None] is the omitted argument. *)
Definition findFiles (fuel : nat) (rootPath : string)
           (includes excludes : list string)
           (minimatchOptions : option MinimatchOptions)
           (rules : option Rules) : Eff (list string) :=
  let invalidIncludes := validatePatternArray includes rules in
  let invalidExcludes := validatePatternArray excludes rules in
  (if JS.nonempty invalidIncludes || JS.nonempty invalidExcludes then
     (if JS.nonempty invalidIncludes
      then logInvalidRuleFeedback invalidIncludes else ret tt) ;;
     (if JS.nonempty invalidExcludes
      then logInvalidRuleFeedback invalidExcludes else ret tt) ;;
     fluid_fail "One or more glob patterns you have entered are invalid.  Cannot continue."
   else ret tt) ;;
  resolved <- ask (fun host => resolvePath host rootPath) ;;
  here <- ask cwd ;;
  let resolvedPath := sanitisePath resolved in
  let pathedIncludes := addPathToPatterns here resolvedPath includes in
  let pathedExcludes := addPathToPatterns here resolvedPath excludes in
  scanSingleDir fuel resolvedPath pathedIncludes pathedExcludes minimatchOptions.

End Scanner.

(** ** A concrete matcher and a concrete host *)

#[global] Instance glob_minimatch : Minimatch := Glob.matches.

Fixpoint lookup {A : Type} (table : list (string * A)) (key : string) : option A :=
  match table with
  | [] => None
  | (k, v) :: table' => if String.eqb k key then Some v else lookup table' key
  end.

(** A host given by the listing of each directory and the kind of each
    other entry; the working directory is the filesystem root and module
    references resolve to themselves. *)
Definition tableHost (dirs : list (string * list string))
           (entries : list (string * Kind)) : Host :=
  {| cwd := "/";
     resolvePath := fun rootPath => rootPath;
     readdirSync := lookup dirs;
     statSync := fun path =>
       match lookup dirs path with
       | Some _ => Some KDirectory
       | None => lookup entries path
       end |}.

(** The tree the package's end-to-end tests scan, mounted at [/fixture]. *)
Definition fixture_dirs : list (string * list string) :=
  [ ("/fixture", ["src"; "root-file.js"; "tests"; ".dot-file.js"; "node_modules"]);
    ("/fixture/src", ["src-file.js"; "deep"]);
    ("/fixture/src/deep", ["deeper"; "deep-file.js"]);
    ("/fixture/src/deep/deeper", ["deeper-file.js"]);
    ("/fixture/tests", ["deep"]);
    ("/fixture/tests/deep", ["deep-file.js"]);
    ("/fixture/node_modules", ["deep"]);
    ("/fixture/node_modules/deep", ["deep-file.js"]) ].

Definition fixture_entries : list (string * Kind) :=
  [ ("/fixture/root-file.js", KFile);
    ("/fixture/.dot-file.js", KFile);
    ("/fixture/src/src-file.js", KFile);
    ("/fixture/src/deep/deep-file.js", KFile);
    ("/fixture/src/deep/deeper/deeper-file.js", KFile);
    ("/fixture/tests/deep/deep-file.js", KFile);
    ("/fixture/node_modules/deep/deep-file.js", KFile) ].

Definition fixture : Host := tableHost fixture_dirs fixture_entries.

(** The same tables with every directory listed backwards. *)
Definition backwards (dirs : list (string * list string)) : list (string * list string) :=
  map (fun dir => (fst dir, rev (snd dir))) dirs.

Definition fixture_backwards : Host := tableHost (backwards fixture_dirs) fixture_entries.

(** A tree with a hidden directory. *)
Definition hiddenTree : Host :=
  tableHost
    [ ("/fixture", [".hidden"]);
      ("/fixture/.hidden", ["a.js"]) ]
    [ ("/fixture/.hidden/a.js", KFile) ].

(** ** Vocabulary of the specification *)

(** "begins with": [p] is an initial part of [s]. *)
Fixpoint begins_with (p s : string) : bool :=
  match p with
  | EmptyString => true
  | String a p' =>
      match s with
      | String b s' => Ascii.eqb a b && begins_with p' s'
      | EmptyString => false
      end
  end.

(** "contains": some character of [s] satisfies [f]. *)
Definition contains (f : ascii -> bool) (s : string) : bool :=
  existsb f (list_ascii_of_string s).

(** "the characters used to build character classes, alternation groups or ranges" *)
Definition regexp_characters : list ascii := ["["; "]"; "("; ")"; "{"; "}"; "|"]%char.

(** The five reasons the spec gives for a positive pattern to be invalid
    under the default rules. *)
Definition has_leading_wildcard (q : string) : bool :=
  begins_with "**" q || begins_with "./**" q.

Definition has_windows_separator (q : string) : bool :=
  contains (Ascii.eqb "\") q.

Definition has_leading_parent_dir (q : string) : bool := begins_with ".." q.

Definition has_regexp_character (q : string) : bool :=
  contains (fun c => existsb (Ascii.eqb c) regexp_characters) q.

Definition is_whole_root (q : string) : bool := String.eqb q "./".

(** "reported invalid under default rules" *)
Definition invalid_by_default (q : string) : bool :=
  has_leading_wildcard q || has_windows_separator q || has_leading_parent_dir q
  || has_regexp_character q || is_whole_root q.

(** One violation record per reason that applies to the positive pattern
    [q], in the order of the default rule mapping. *)
Definition expected_violations (q : string) : list Violation :=
  (if has_leading_wildcard q
   then [ {| glob := q; error := "contains a leading wildcard" |} ] else [])
  ++ (if has_windows_separator q
      then [ {| glob := q; error := "contains a windows separator" |} ] else [])
  ++ (if has_leading_parent_dir q
      then [ {| glob := q; error := "contains a reference to a parent directory" |} ]
      else [])
  ++ (if has_regexp_character q
      then [ {| glob := q;
                error := "contains a character used to define a regular expression" |} ]
      else [])
  ++ (if is_whole_root q
      then [ {| glob := q;
                error := "contains a reference to the whole of the root directory" |} ]
      else []).

Section Decision.

Context {M : Minimatch}.

(** The inclusion decision of section 4.6 for one entry whose kind is
    [stats], with the matching mode the code uses at each step: the
    relaxed directory test for positive includes and negated excludes,
    exact matching for negated includes and positive excludes. *)
Definition accepts (includes excludes : list string)
           (minimatchOptions : option MinimatchOptions)
           (singlePath : string) (stats : Kind) : bool :=
  let isDir := isDirectory stats in
  find_match (positivePatterns includes) singlePath minimatchOptions isDir
  && (find_match (negativePatterns excludes) singlePath minimatchOptions isDir
      || negb (find_match (negativePatterns includes ++ positivePatterns excludes)
                          singlePath minimatchOptions false)).

(** The same decision in the words of the claim about excludes: every
    pattern of the excludes list, negated or not, is evaluated with exact
    matching, and only positive includes use the relaxed directory test. *)
Definition accepts_with_exact_excludes (includes excludes : list string)
           (minimatchOptions : option MinimatchOptions)
           (singlePath : string) (stats : Kind) : bool :=
  let isDir := isDirectory stats in
  find_match (positivePatterns includes) singlePath minimatchOptions isDir
  && (find_match (negativePatterns excludes) singlePath minimatchOptions false
      || negb (find_match (negativePatterns includes ++ positivePatterns excludes)
                          singlePath minimatchOptions false)).

(** The entries of [dirPaths] a decision keeps, on a host where each can
    be stat'ed. *)
Definition kept (host : Host) (decision : string -> Kind -> bool)
           (dirPaths : list string) : list string :=
  filter (fun singlePath =>
            match statSync host singlePath with
            | Some stats => decision singlePath stats
            | None => false
            end)
         dirPaths.

End Decision.

(** ** Snapshots *)

(** The entries of [dirPath] as [scanSingleDir] names them. *)
Definition entryPaths (host : Host) (dirPath : string) (names : list string)
  : list string :=
  map (fun subPath => Path.resolve (cwd host) [dirPath; subPath]) names.

(** [dirPath] can be listed and everything beneath it, down to [depth]
    levels, can be stat'ed and listed: no scan of at most that depth meets a
    filesystem error. *)
Fixpoint scannable (host : Host) (depth : nat) (dirPath : string) : Prop :=
  match depth with
  | 0 => False
  | S depth' =>
      match readdirSync host dirPath with
      | None => False
      | Some names =>
          Forall (fun singlePath =>
                    match statSync host singlePath with
                    | None => False
                    | Some KDirectory => scannable host depth' singlePath
                    | Some _ => True
                    end)
                 (entryPaths host dirPath names)
      end
  end.

Definition same_listing (l l' : option (list string)) : Prop :=
  match l, l' with
  | Some names, Some names' => Permutation names names'
  | None, None => True
  | _, _ => False
  end.

(** Two hosts showing the same filesystem snapshot: they may differ only in
    the order in which a directory lists its entries. *)
Record same_snapshot (host host' : Host) : Prop := {
  same_cwd : cwd host = cwd host';
  same_resolvePath : forall rootPath, resolvePath host rootPath = resolvePath host' rootPath;
  same_statSync : forall path, statSync host path = statSync host' path;
  same_readdirSync :
    forall path, same_listing (readdirSync host path) (readdirSync host' path)
}.

(** "a strict ancestor": the segments of [dirPath] are the first segments of
    [filePath], which has more. *)
Definition strict_ancestor (dirPath filePath : string) : Prop :=
  exists below, below <> [] /\ JS.split "/" filePath = JS.split "/" dirPath ++ below.

(** Every segment that comes before the first [**] is literal: it holds no
    wildcard. *)
Fixpoint literal_before_globstar (patternSegments : list string) : bool :=
  match patternSegments with
  | [] => true
  | patternSegment :: rest =>
      if String.eqb patternSegment "**" then true
      else negb (contains (Ascii.eqb "*") patternSegment)
           && literal_before_globstar rest
  end.

(** The negation marker of a pattern, if it has one. *)
Definition negation_marker (pattern_ : string) : string :=
  if JS.indexOf_is_0 pattern_ "!" then "!" else "".

(** No segment is empty or a parent-directory reference. *)
Definition plain_segments (segments : list string) : bool :=
  forallb (fun segment => negb (String.eqb segment "") && negb (String.eqb segment ".."))
          segments.

(** The segments of [path] that name something: not empty and not [.]. *)
Definition naming_segments (segments : list string) : list string :=
  filter (fun segment => negb (String.eqb segment "" || String.eqb segment ".")) segments.


(** ** Views used to state further properties *)

(** Whether a pattern carries the negation marker. *)
Definition negated (pattern_ : string) : bool := JS.indexOf_is_0 pattern_ "!".

(** The rules of the active rule set, in the order [fluid.each] visits them. *)
Definition active_rules (rules : option Rules) : list Rule :=
  map snd match rules with Some r => r | None => invalidGlobRules end.

(** The loop of [dirMightMatch] read on the two lists of segments rather
    than through an index. *)
Fixpoint might_match_segments (patternSegments pathSegments : list string)
         {struct pathSegments} : bool :=
  match pathSegments with
  | [] => true
  | pathSegment :: pathSegments' =>
      match patternSegments with
      | [] => false
      | patternSegment :: patternSegments' =>
          if String.eqb patternSegment "**" then true
          else if String.eqb pathSegment patternSegment
               then might_match_segments patternSegments' pathSegments'
               else false
      end
  end.

(** The separators [sanitisePath] splits at: the class [[\/\\]]. *)
Definition is_separator (c : ascii) : bool :=
  existsb (Regex.in_item c) [One "/"; One "\"].

(** All the segments but the last are not empty. *)
Fixpoint inner_nonempty (segments : list string) : Prop :=
  match segments with
  | [] => True
  | segment :: rest =>
      match rest with
      | [] => True
      | _ :: _ => segment <> "" /\ inner_nonempty rest
      end
  end.

(** A tree whose directory lists an entry that cannot be stat'ed. *)
Definition danglingTree : Host :=
  tableHost [ ("/fixture", ["a.js"; "gone.js"]) ] [ ("/fixture/a.js", KFile) ].

(** What the specification has a scan of [dirPath] return, [depth] levels
    deep: going through the entries of the directory that the inclusion
    decision accepts, in ascending order, the entry itself where it is a
    file and what the scan of the entry returns where it is a directory. *)
Fixpoint expected_matches {M : Minimatch} (host : Host)
         (includes excludes : list string)
         (minimatchOptions : option MinimatchOptions)
         (depth : nat) (dirPath : string) : list string :=
  match depth with
  | 0 => []
  | S depth' =>
      match readdirSync host dirPath with
      | None => []
      | Some names =>
          flat_map
            (fun singlePath =>
               match statSync host singlePath with
               | Some KFile => [singlePath]
               | Some KDirectory =>
                   expected_matches host includes excludes minimatchOptions
                                    depth' singlePath
               | _ => []
               end)
            (kept host (accepts includes excludes minimatchOptions)
                  (sort (entryPaths host dirPath names)))
      end
  end.

(** The filesystem calls of that scan, in the order they are made: the
    directory is listed and its entries are stat'ed in ascending order;
    then each accepted entry, in the same order, is stat'ed again and, where
    it is a directory, scanned before the next entry is looked at. *)
Fixpoint expected_calls {M : Minimatch} (host : Host)
         (includes excludes : list string)
         (minimatchOptions : option MinimatchOptions)
         (depth : nat) (dirPath : string) : list Event :=
  match depth with
  | 0 => []
  | S depth' =>
      match readdirSync host dirPath with
      | None => [ReadDir dirPath]
      | Some names =>
          ReadDir dirPath
          :: map Stat (sort (entryPaths host dirPath names))
          ++ flat_map
               (fun singlePath =>
                  Stat singlePath
                  :: match statSync host singlePath with
                     | Some KDirectory =>
                         expected_calls host includes excludes minimatchOptions
                                        depth' singlePath
                     | _ => []
                     end)
               (kept host (accepts includes excludes minimatchOptions)
                     (sort (entryPaths host dirPath names)))
      end
  end.

(** The files a scan started on [dirPath] is led to: the entries of
    [dirPath] that are files the inclusion decision accepts, and the files
    it is led to from the entries that are directories the decision
    accepts. *)
Inductive led_to {M : Minimatch} (host : Host) (includes excludes : list string)
          (minimatchOptions : option MinimatchOptions) : string -> string -> Prop :=
| led_to_file (dirPath : string) (names : list string) (name : string) :
    readdirSync host dirPath = Some names ->
    In name names ->
    statSync host (Path.resolve (cwd host) [dirPath; name]) = Some KFile ->
    accepts includes excludes minimatchOptions
            (Path.resolve (cwd host) [dirPath; name]) KFile = true ->
    led_to host includes excludes minimatchOptions
           dirPath (Path.resolve (cwd host) [dirPath; name])
| led_to_directory (dirPath : string) (names : list string) (name filePath : string) :
    readdirSync host dirPath = Some names ->
    In name names ->
    statSync host (Path.resolve (cwd host) [dirPath; name]) = Some KDirectory ->
    accepts includes excludes minimatchOptions
            (Path.resolve (cwd host) [dirPath; name]) KDirectory = true ->
    led_to host includes excludes minimatchOptions
           (Path.resolve (cwd host) [dirPath; name]) filePath ->
    led_to host includes excludes minimatchOptions dirPath filePath.

(** ** Proof automation *)

(** Case analysis on every character comparison of the goal. *)
Ltac split_on_chars :=
  repeat match goal with
         | |- context [Ascii.eqb ?a ?b] =>
             destruct (Ascii.eqb a b); cbn -[Ascii.eqb]
         end.

(** * Properties *)

(** ** Strings *)

Lemma substring_0_length (s : string) : String.substring 0 (String.length s) s = s.
Proof.
  induction s as [|c s IH]; simpl; [reflexivity | now rewrite IH].
Qed.

Lemma substring1_cons (c : ascii) (s : string) : JS.substring1 (String c s) = s.
Proof.
  unfold JS.substring1. simpl. rewrite Nat.sub_0_r. apply substring_0_length.
Qed.

Lemma prefix_char (c : ascii) (s : string) :
  String.prefix (String c EmptyString) s = true <-> exists t, s = String c t.
Proof.
  destruct s as [|b t]; simpl.
  - split; [discriminate | intros [t Ht]; discriminate].
  - destruct (ascii_dec c b) as [->|Hne].
    + split; [eauto | intros _; now destruct t].
    + split; [discriminate | intros [t' Ht']; congruence].
Qed.

Lemma indexOf_is_0_char (c : ascii) (s : string) :
  JS.indexOf_is_0 s (String c EmptyString) = true <-> exists t, s = String c t.
Proof.
  rewrite <- prefix_char. unfold JS.indexOf_is_0, JS.indexOf.
  destruct s as [|b t]; [simpl; tauto|].
  cbn [String.index].
  destruct (String.prefix (String c EmptyString) (String b t)).
  - tauto.
  - destruct (String.index 0 (String c EmptyString) t); split; discriminate.
Qed.

Lemma indexOf_is_0_head (c b : ascii) (t : string) :
  JS.indexOf_is_0 (String b t) (String c EmptyString) = Ascii.eqb c b.
Proof.
  destruct (Ascii.eqb_spec c b) as [->|Hne].
  - apply indexOf_is_0_char. eauto.
  - destruct (JS.indexOf_is_0 (String b t) (String c EmptyString)) eqn:E; [|reflexivity].
    apply indexOf_is_0_char in E. destruct E as [t' E]. congruence.
Qed.

Lemma string_cons_neq (c : ascii) (s : string) : s <> String c s.
Proof.
  intros H. apply (f_equal String.length) in H. simpl in H. lia.
Qed.

(** ** Pattern classifier *)

Lemma positivePattern_negated (t : string) : positivePattern (String "!" t) = t.
Proof.
  unfold positivePattern. rewrite indexOf_is_0_head. simpl. apply substring1_cons.
Qed.

Lemma positivePattern_positive (p : string) :
  JS.indexOf_is_0 p "!" = false -> positivePattern p = p.
Proof.
  unfold positivePattern. now intros ->.
Qed.

Lemma begins_with_double_negation (p : string) :
  begins_with "!!" p = true <-> exists t, p = String "!" (String "!" t).
Proof.
  destruct p as [|a [|b t]]; cbn [begins_with].
  - split; [discriminate | intros [t H]; discriminate].
  - rewrite andb_false_r. split; [discriminate | intros [t H]; discriminate].
  - rewrite andb_true_r.
    destruct (Ascii.eqb_spec "!" a) as [<-|Ha]; cbn [andb].
    + destruct (Ascii.eqb_spec "!" b) as [<-|Hb].
      * split; eauto.
      * split; [discriminate | intros [t' H]; congruence].
    + split; [discriminate | intros [t' H]; congruence].
Qed.

(** C8, as stated, fails: stripping stops after one marker, so a pattern
    that begins with two negation markers loses one at each application. *)
Lemma positivePattern_not_idempotent :
  positivePattern (positivePattern "!!a") <> positivePattern "!!a".
Proof.
  vm_compute. discriminate.
Qed.

(** C8 (amended): [positivePattern] is idempotent on every pattern that does
    not begin with two negation markers, in particular on every pattern
    that is already positive. *)
Theorem positivePattern_idempotent_single_marker (p : string) :
  begins_with "!!" p = false ->
  positivePattern (positivePattern p) = positivePattern p.
Proof.
  intros Hp.
  destruct p as [|a t]; [reflexivity|].
  destruct (Ascii.eqb_spec "!" a) as [<-|Ha].
  - rewrite positivePattern_negated.
    apply positivePattern_positive.
    destruct t as [|b t']; [reflexivity|].
    rewrite indexOf_is_0_head.
    destruct (Ascii.eqb_spec "!" b) as [<-|Hb]; [|reflexivity].
    assert (begins_with "!!" (String "!" (String "!" t')) = true) as Habs
        by (apply begins_with_double_negation; eauto).
    congruence.
  - assert (positivePattern (String a t) = String a t) as E.
    { apply positivePattern_positive. rewrite indexOf_is_0_head.
      now apply Ascii.eqb_neq. }
    now rewrite !E.
Qed.

Lemma positivePattern_idempotent_single_marker_witness :
  begins_with "!!" "!./src/*.js" = false /\
  positivePattern (positivePattern "!./src/*.js") = positivePattern "!./src/*.js".
Proof.
  split; [reflexivity|].
  apply (positivePattern_idempotent_single_marker "!./src/*.js"). reflexivity.
Defined.

(** The converse: two leading markers always break idempotence. *)
Lemma positivePattern_double_negation (p : string) :
  begins_with "!!" p = true ->
  positivePattern (positivePattern p) <> positivePattern p.
Proof.
  intros Hp. apply begins_with_double_negation in Hp. destruct Hp as [t ->].
  rewrite !positivePattern_negated. apply string_cons_neq.
Qed.

(** ** Regular expressions of the default rules *)

Lemma search_anchored (r : re) (pos : nat) (s : string) :
  Regex.search (Seq Bol r) (S pos) s = false.
Proof.
  revert pos. induction s as [|c s IH]; intros pos; cbn; [reflexivity | apply IH].
Qed.

Lemma test_anchored (r : re) (s : string) :
  Regex.test (Seq Bol r) s = JS.nonempty (matches_at r 0 s).
Proof.
  unfold Regex.test.
  destruct s as [|c s]; cbn [Regex.search matches_at Nat.eqb flat_map fst snd];
    rewrite app_nil_r; destruct (matches_at r 0 _); cbn [JS.nonempty];
    try reflexivity.
  apply search_anchored.
Qed.

Lemma search_class (items : list item) (pos : nat) (s : string) :
  Regex.search (Cls items) pos s = contains (fun c => existsb (in_item c) items) s.
Proof.
  revert pos. unfold contains.
  induction s as [|c s IH]; intros pos; cbn -[in_item]; [reflexivity|].
  destruct (existsb (in_item c) items); cbn; [reflexivity | apply IH].
Qed.

Lemma search_char (c : ascii) (pos : nat) (s : string) :
  Regex.search (Chr c) pos s = contains (Ascii.eqb c) s.
Proof.
  revert pos. unfold contains.
  induction s as [|b s IH]; intros pos; cbn -[Ascii.eqb]; [reflexivity|].
  destruct (Ascii.eqb c b); cbn; [reflexivity | apply IH].
Qed.

Lemma contains_ext (f g : ascii -> bool) (s : string) :
  (forall c, f c = g c) -> contains f s = contains g s.
Proof.
  intros H. unfold contains.
  induction (list_ascii_of_string s) as [|c l IH]; cbn; [reflexivity|].
  now rewrite H, IH.
Qed.

Lemma noLeadingWildcard_test (q : string) :
  pattern noLeadingWildcard q = has_leading_wildcard q.
Proof.
  cbn [pattern noLeadingWildcard]. rewrite test_anchored.
  unfold has_leading_wildcard.
  destruct q as [|a [|b [|c [|d t]]]]; cbn -[Ascii.eqb];
    split_on_chars; reflexivity.
Qed.

Lemma noWindowsSeparator_test (q : string) :
  pattern noWindowsSeparator q = has_windows_separator q.
Proof.
  cbn [pattern noWindowsSeparator]. apply search_char.
Qed.

Lemma noParentDir_test (q : string) :
  pattern noParentDir q = has_leading_parent_dir q.
Proof.
  cbn [pattern noParentDir]. rewrite test_anchored.
  unfold has_leading_parent_dir.
  destruct q as [|a [|b t]]; cbn -[Ascii.eqb]; split_on_chars; reflexivity.
Qed.

Lemma noRegexp_test (q : string) :
  pattern noRegexp q = has_regexp_character q.
Proof.
  cbn [pattern noRegexp]. unfold Regex.test. rewrite search_class.
  apply contains_ext. intros c. reflexivity.
Qed.

Lemma noWholeRoot_test (q : string) :
  pattern noWholeRoot q = is_whole_root q.
Proof.
  cbn [pattern noWholeRoot]. rewrite test_anchored.
  unfold is_whole_root.
  destruct q as [|a [|b [|c t]]]; cbn -[Ascii.eqb];
    rewrite ?(Ascii.eqb_sym a), ?(Ascii.eqb_sym b);
    split_on_chars; reflexivity.
Qed.

(** ** Pattern validator *)

Lemma validatePattern_default (p : string) :
  validatePattern p None = expected_violations (positivePattern p).
Proof.
  unfold validatePattern, invalidGlobRules, expected_violations.
  cbn [fold_left snd].
  rewrite noLeadingWildcard_test, noWindowsSeparator_test, noParentDir_test,
    noRegexp_test, noWholeRoot_test.
  destruct (has_leading_wildcard _), (has_windows_separator _),
    (has_leading_parent_dir _), (has_regexp_character _), (is_whole_root _);
    reflexivity.
Qed.

Lemma validatePattern_no_rules (p : string) : validatePattern p (Some []) = [].
Proof. reflexivity. Qed.

Lemma validatePattern_glob (p : string) (rules : option Rules) (v : Violation) :
  In v (validatePattern p rules) -> glob v = positivePattern p.
Proof.
  unfold validatePattern.
  set (q := positivePattern p).
  set (rs := match rules with Some r => r | None => invalidGlobRules end).
  assert (forall acc, (forall w, In w acc -> glob w = q) ->
            In v (fold_left
                    (fun failures (entry : string * Rule) =>
                       if pattern (snd entry) q
                       then failures ++ [ {| glob := q; error := message (snd entry) |} ]
                       else failures) rs acc) -> glob v = q) as H.
  { induction rs as [|r rs IH]; intros acc Hacc; cbn [fold_left].
    - apply Hacc.
    - apply IH. destruct (pattern (snd r) q); [|exact Hacc].
      intros w Hw. apply in_app_or in Hw. destruct Hw as [Hw|[<-|[]]]; auto. }
  apply H. intros w [].
Qed.

(** C6: under the default rules a pattern whose positive form begins with
    the recursive wildcard (with or without a leading [./]), contains a
    backslash, begins with a parent-directory reference, contains one of
    [\[\](){}|] or is exactly [./] gets one violation record for each reason
    that applies, so at least one; every record names the positive form of
    the pattern; and with an empty rule mapping there is no violation. *)
Theorem validatePattern_default_rules (p : string) :
  invalid_by_default (positivePattern p) = true ->
  validatePattern p None = expected_violations (positivePattern p) /\
  validatePattern p None <> [] /\
  (forall v, In v (validatePattern p None) -> glob v = positivePattern p) /\
  validatePattern p (Some []) = [].
Proof.
  intros Hbad. repeat split.
  - apply validatePattern_default.
  - rewrite validatePattern_default. unfold expected_violations.
    unfold invalid_by_default in Hbad.
    destruct (has_leading_wildcard _); [discriminate|].
    destruct (has_windows_separator _); [discriminate|].
    destruct (has_leading_parent_dir _); [discriminate|].
    destruct (has_regexp_character _); [discriminate|].
    destruct (is_whole_root _); [discriminate|].
    discriminate.
  - intros v. apply validatePattern_glob.
Qed.

Lemma validatePattern_default_rules_witness :
  invalid_by_default (positivePattern "!./**/*.js") = true /\
  validatePattern "!./**/*.js" None
  = [ {| glob := "./**/*.js"; error := "contains a leading wildcard" |} ] /\
  validatePattern "!./**/*.js" (Some []) = [].
Proof.
  split; [reflexivity|].
  destruct (validatePattern_default_rules "!./**/*.js") as (E & _ & _ & N);
    [reflexivity|].
  split; [rewrite E; reflexivity | exact N].
Defined.

(** Conversely, a pattern none of the five reasons applies to is valid. *)
Lemma validatePattern_default_valid (p : string) :
  invalid_by_default (positivePattern p) = false -> validatePattern p None = [].
Proof.
  intros H. rewrite validatePattern_default.
  unfold invalid_by_default in H. unfold expected_violations.
  destruct (has_leading_wildcard _); [discriminate|].
  destruct (has_windows_separator _); [discriminate|].
  destruct (has_leading_parent_dir _); [discriminate|].
  destruct (has_regexp_character _); [discriminate|].
  destruct (is_whole_root _); [discriminate | reflexivity].
Qed.

(** ** Computations on the host *)

Lemma bind_returned {A B : Type} (m : Eff A) (k : A -> Eff B) (host : Host)
      (events : list Event) (a : A) :
  m host = (events, Returned a) ->
  bind m k host = (events ++ fst (k a host), snd (k a host)).
Proof.
  intros E. unfold bind. rewrite E. now destruct (k a host).
Qed.

Lemma bind_threw {A B : Type} (m : Eff A) (k : A -> Eff B) (host : Host)
      (events : list Event) (e : Exception) :
  m host = (events, Threw e) -> bind m k host = (events, Threw e).
Proof.
  intros E. unfold bind. now rewrite E.
Qed.

(** What a computation returned, whatever came after it returned too. *)
Lemma bind_inv {A B : Type} (m : Eff A) (k : A -> Eff B) (host : Host)
      (events : list Event) (b : B) :
  bind m k host = (events, Returned b) ->
  exists events1 a events2,
    m host = (events1, Returned a) /\ k a host = (events2, Returned b)
    /\ events = events1 ++ events2.
Proof.
  unfold bind. destruct (m host) as [events1 [a|e|]]; try discriminate.
  destruct (k a host) as [events2 outcome] eqn:Ek.
  intros [= <- ->]. now exists events1, a, events2.
Qed.

Lemma fs_statSync_some (host : Host) (path : string) (stats : Kind) :
  statSync host path = Some stats ->
  fs_statSync path host = ([Stat path], Returned stats).
Proof.
  intros E. unfold fs_statSync. now rewrite E.
Qed.

Lemma fs_statSync_inv (host : Host) (path : string) (events : list Event)
      (stats : Kind) :
  fs_statSync path host = (events, Returned stats) ->
  statSync host path = Some stats /\ events = [Stat path].
Proof.
  unfold fs_statSync. destruct (statSync host path); intros [= <- E];
    try discriminate.
  subst. auto.
Qed.

(** A loop whose body only reads the host and decides whether to push the
    entry: on a host where each entry can be stat'ed it stats them in order
    and returns the entries it decided to keep. *)
Lemma each_stat_filter (host : Host) (decision : string -> Kind -> bool)
      (fn : list string -> string -> Eff (list string)) (l acc : list string) :
  (forall acc' x stats,
      statSync host x = Some stats ->
      fn acc' x host
      = ([Stat x], Returned (if decision x stats then acc' ++ [x] else acc'))) ->
  Forall (fun x => statSync host x <> None) l ->
  each l fn acc host = (map Stat l, Returned (acc ++ kept host decision l)).
Proof.
  intros Hfn. revert acc.
  induction l as [|x l IH]; intros acc Hl; cbn [each map kept filter].
  - unfold ret. now rewrite app_nil_r.
  - inversion Hl as [|? ? Hx Hl']; subst.
    destruct (statSync host x) as [stats|] eqn:Ex; [|congruence].
    rewrite (bind_returned _ _ _ _ _ (Hfn acc x stats Ex)).
    rewrite (IH _ Hl'). cbn [fst snd app]. unfold kept.
    destruct (decision x stats); [now rewrite <- app_assoc | reflexivity].
Qed.

(** When a loop returned, each run of its body had returned. *)
Lemma each_returned_Forall {A B : Type} (P : A -> Prop) (host : Host)
      (fn : B -> A -> Eff B) (l : list A) (acc : B) (events : list Event) (b : B) :
  (forall acc' x events' b', fn acc' x host = (events', Returned b') -> P x) ->
  each l fn acc host = (events, Returned b) ->
  Forall P l.
Proof.
  intros Hfn. revert acc events.
  induction l as [|x l IH]; intros acc events H; [constructor|].
  cbn [each] in H. apply bind_inv in H.
  destruct H as (ev1 & acc' & ev2 & H1 & H2 & _).
  constructor; [eapply Hfn; exact H1 | eapply IH; exact H2].
Qed.

(** ** Path-set filter *)

Section FilterProperties.

Context {M : Minimatch}.

Lemma filterEntry_returns (host : Host) (includes excludes : list string)
      (minimatchOptions : option MinimatchOptions)
      (matchingPaths : list string) (singlePath : string) (stats : Kind) :
  statSync host singlePath = Some stats ->
  filterEntry (positivePatterns includes) (negativePatterns includes)
              (positivePatterns excludes) (negativePatterns excludes)
              minimatchOptions matchingPaths singlePath host
  = ([Stat singlePath],
     Returned (if accepts includes excludes minimatchOptions singlePath stats
               then matchingPaths ++ [singlePath] else matchingPaths)).
Proof.
  intros E. unfold filterEntry.
  rewrite (bind_returned _ _ _ _ _ (fs_statSync_some _ _ _ E)).
  unfold accepts. cbn zeta.
  destruct (find_match (positivePatterns includes) _ _ _); cbn [andb];
    [|reflexivity].
  destruct (find_match (negativePatterns excludes) _ _ _); cbn [orb];
    [reflexivity|].
  destruct (find_match (negativePatterns includes ++ positivePatterns excludes) _ _ _);
    reflexivity.
Qed.

(** On a host where each entry can be stat'ed, [filterPaths] stats the
    entries in order and returns those the decision accepts. *)
Lemma filterPaths_returns (host : Host) (dirPaths includes excludes : list string)
      (minimatchOptions : option MinimatchOptions) :
  Forall (fun singlePath => statSync host singlePath <> None) dirPaths ->
  filterPaths dirPaths includes excludes minimatchOptions host
  = (map Stat dirPaths,
     Returned (kept host (accepts includes excludes minimatchOptions) dirPaths)).
Proof.
  intros H. unfold filterPaths.
  rewrite (each_stat_filter host (accepts includes excludes minimatchOptions));
    [reflexivity | | exact H].
  intros acc' x stats Ex. now apply filterEntry_returns.
Qed.

(** Whenever [filterPaths] returns, each entry could be stat'ed. *)
Lemma filterPaths_inv (host : Host) (dirPaths includes excludes : list string)
      (minimatchOptions : option MinimatchOptions)
      (events : list Event) (allowed : list string) :
  filterPaths dirPaths includes excludes minimatchOptions host
  = (events, Returned allowed) ->
  Forall (fun singlePath => statSync host singlePath <> None) dirPaths.
Proof.
  unfold filterPaths. apply each_returned_Forall.
  intros acc x ev b H. apply bind_inv in H.
  destruct H as (ev1 & stats & ev2 & H & _ & _).
  apply fs_statSync_inv in H. destruct H as [H _]. congruence.
Qed.

Lemma kept_In (host : Host) (decision : string -> Kind -> bool)
      (dirPaths : list string) (singlePath : string) :
  In singlePath (kept host decision dirPaths) <->
  In singlePath dirPaths /\
  exists stats, statSync host singlePath = Some stats
                /\ decision singlePath stats = true.
Proof.
  unfold kept. rewrite filter_In.
  destruct (statSync host singlePath) as [stats|].
  - split; intros [H1 H2]; split; eauto. destruct H2 as (s & [= <-] & H2); auto.
  - split; intros [H1 H2]; [discriminate | destruct H2 as (s & [=] & _)].
Qed.

End FilterProperties.

Section FilterClaims.

Context {M : Minimatch}.

(** C3: negated-exclude precedence.  An entry that matches a positive
    include and a negated exclude is accepted, whatever the negated
    includes and the positive excludes are. *)
Theorem negated_exclude_precedence
        (host : Host) (dirPaths includes excludes : list string)
        (minimatchOptions : option MinimatchOptions)
        (singlePath : string) (stats : Kind) :
  Forall (fun p => statSync host p <> None) dirPaths ->
  In singlePath dirPaths ->
  statSync host singlePath = Some stats ->
  find_match (positivePatterns includes) singlePath minimatchOptions
             (isDirectory stats) = true ->
  find_match (negativePatterns excludes) singlePath minimatchOptions
             (isDirectory stats) = true ->
  exists events allowed,
    filterPaths dirPaths includes excludes minimatchOptions host
    = (events, Returned allowed)
    /\ In singlePath allowed.
Proof.
  intros Hstat Hin Hs Hinc Hneg.
  eexists _, _. split; [apply filterPaths_returns; exact Hstat|].
  apply kept_In. split; [exact Hin|].
  exists stats. split; [exact Hs|].
  unfold accepts. cbn zeta. now rewrite Hinc, Hneg.
Qed.

(** C2 (amended): negated includes and positive excludes are evaluated with
    exact matching even for a directory, while positive includes and
    negated excludes use the relaxed directory test.  So a directory is
    accepted exactly when it might match a positive include and either
    might match a negated exclude or is matched exactly by no negated
    include and no positive exclude; a pattern of which the directory is
    only a prefix never rejects it. *)
Theorem filterPaths_directory_matching
        (host : Host) (dirPaths includes excludes : list string)
        (minimatchOptions : option MinimatchOptions) (dirPath : string) :
  Forall (fun p => statSync host p <> None) dirPaths ->
  statSync host dirPath = Some KDirectory ->
  exists events allowed,
    filterPaths dirPaths includes excludes minimatchOptions host
    = (events, Returned allowed)
    /\ (In dirPath allowed <->
        In dirPath dirPaths
        /\ existsb (dirMightMatch dirPath) (positivePatterns includes) = true
        /\ (existsb (dirMightMatch dirPath) (negativePatterns excludes) = true
            \/ existsb (fun pattern_ =>
                          minimatch dirPath pattern_
                                    match minimatchOptions with
                                    | Some o => o
                                    | None => noOptions
                                    end)
                       (negativePatterns includes ++ positivePatterns excludes)
               = false)).
Proof.
  intros Hstat Hdir.
  eexists _, _. split; [apply filterPaths_returns; exact Hstat|].
  rewrite kept_In. unfold accepts, find_match, matchesSinglePattern.
  cbn zeta. split.
  - intros (Hin & stats & Hs & Hacc).
    rewrite Hdir in Hs. injection Hs as <-. cbn [isDirectory] in Hacc.
    apply andb_true_iff in Hacc. destruct Hacc as [H1 H2].
    apply orb_true_iff in H2. rewrite negb_true_iff in H2. auto.
  - intros (Hin & H1 & H2). split; [exact Hin|].
    exists KDirectory. split; [exact Hdir|]. cbn [isDirectory].
    apply andb_true_iff. split; [exact H1|].
    apply orb_true_iff. rewrite negb_true_iff. exact H2.
Qed.

(** C10 (amended): with the [isDir] flag set, [matchesSinglePattern]
    ignores the options and is [dirMightMatch]; hence the options never
    influence the tests a directory undergoes against positive includes
    and negated excludes. *)
Theorem matchesSinglePattern_directory
        (pathToMatch pattern_ : string) (patterns : list string)
        (o1 o2 : option MinimatchOptions) :
  matchesSinglePattern pathToMatch pattern_ o1 true
  = matchesSinglePattern pathToMatch pattern_ o2 true
  /\ matchesSinglePattern pathToMatch pattern_ o1 true
     = dirMightMatch pathToMatch pattern_
  /\ find_match patterns pathToMatch o1 true
     = find_match patterns pathToMatch o2 true.
Proof.
  repeat split.
Qed.

End FilterClaims.

Lemma negated_exclude_precedence_witness :
  exists events allowed,
    filterPaths ["/fixture/src/deep/deeper/deeper-file.js"]
                ["/fixture/src/**/*.js"; "!/fixture/src/**/deeper/*.js"]
                ["/fixture/src/deep/**/*.js"; "!/fixture/src/**/deeper/*.js"]
                None fixture
    = (events, Returned allowed)
    /\ In "/fixture/src/deep/deeper/deeper-file.js" allowed.
Proof.
  apply (negated_exclude_precedence fixture) with (stats := KFile).
  - repeat constructor. discriminate.
  - left. reflexivity.
  - reflexivity.
  - reflexivity.
  - reflexivity.
Defined.

(** C2, as stated, fails: a negated exclude is evaluated with the relaxed
    directory test.  The directory [/fixture/src] is matched exactly by the
    exclude [/fixture/src] and only as a prefix by the negated exclude, and
    it is accepted; with exact matching for every exclude it would not be. *)
Lemma filterPaths_negated_exclude_is_relaxed :
  snd (filterPaths ["/fixture/src"] ["/fixture/src/**/*.js"]
                   ["/fixture/src"; "!/fixture/src/deep/deep-file.js"]
                   None fixture)
  = Returned ["/fixture/src"]
  /\ kept fixture
          (accepts_with_exact_excludes
             ["/fixture/src/**/*.js"]
             ["/fixture/src"; "!/fixture/src/deep/deep-file.js"] None)
          ["/fixture/src"]
     = []
  /\ snd (filterPaths ["/fixture/src"] ["/fixture/src/**/*.js"]
                      ["/fixture/src"; "!/fixture/src/deep/deep-file.js"]
                      None fixture)
     <> Returned
          (kept fixture
                (accepts_with_exact_excludes
                   ["/fixture/src/**/*.js"]
                   ["/fixture/src"; "!/fixture/src/deep/deep-file.js"] None)
                ["/fixture/src"]).
Proof.
  repeat split. discriminate.
Qed.

Lemma filterPaths_directory_matching_witness :
  exists events allowed,
    filterPaths ["/fixture/src"] ["/fixture/src/**/*.js"]
                ["/fixture/src"; "!/fixture/src/deep/deep-file.js"] None fixture
    = (events, Returned allowed)
    /\ In "/fixture/src" allowed.
Proof.
  destruct (filterPaths_directory_matching
              fixture ["/fixture/src"] ["/fixture/src/**/*.js"]
              ["/fixture/src"; "!/fixture/src/deep/deep-file.js"] None "/fixture/src")
    as (events & allowed & E & H).
  - repeat constructor. discriminate.
  - reflexivity.
  - exists events, allowed. split; [exact E|].
    apply H. split; [left; reflexivity|]. split; [reflexivity|].
    left. reflexivity.
Defined.

(** C10, as stated, fails in its conclusion: negated includes and positive
    excludes are matched against directories with [minimatch] and the
    options.  With [dot] unset the exclude [/fixture/*] does not match the
    hidden directory, which is scanned; with [dot] set it does, and the
    directory is never listed. *)
Lemma options_decide_recursion :
  scanSingleDir 3 "/fixture" ["/fixture/.hidden/*.js"] ["/fixture/*"]
                (Some {| dot := false; matchBase := false |}) hiddenTree
  = ([ReadDir "/fixture"; Stat "/fixture/.hidden"; Stat "/fixture/.hidden";
      ReadDir "/fixture/.hidden"; Stat "/fixture/.hidden/a.js";
      Stat "/fixture/.hidden/a.js"],
     Returned ["/fixture/.hidden/a.js"])
  /\ scanSingleDir 3 "/fixture" ["/fixture/.hidden/*.js"] ["/fixture/*"]
                   (Some {| dot := true; matchBase := false |}) hiddenTree
     = ([ReadDir "/fixture"; Stat "/fixture/.hidden"], Returned [])
  /\ snd (scanSingleDir 3 "/fixture" ["/fixture/.hidden/*.js"] ["/fixture/*"]
                        (Some {| dot := false; matchBase := false |}) hiddenTree)
     <> snd (scanSingleDir 3 "/fixture" ["/fixture/.hidden/*.js"] ["/fixture/*"]
                           (Some {| dot := true; matchBase := false |}) hiddenTree).
Proof.
  repeat split. discriminate.
Qed.

(** ** Sorting *)

Module SortFacts.

Lemma compare_units_refl (a : list N) : UTF16.compare_units a a = Eq.
Proof.
  induction a as [|x a IH]; cbn [UTF16.compare_units]; [reflexivity|].
  now rewrite N.compare_refl.
Qed.

Lemma compare_units_eq (a b : list N) : UTF16.compare_units a b = Eq -> a = b.
Proof.
  revert b.
  induction a as [|x a IH]; intros [|y b]; cbn [UTF16.compare_units];
    try discriminate; [reflexivity|].
  destruct (x ?= y)%N eqn:E; try discriminate.
  apply N.compare_eq_iff in E. intros H. now rewrite E, (IH _ H).
Qed.

Lemma compare_units_antisym (a b : list N) :
  UTF16.compare_units b a = CompOpp (UTF16.compare_units a b).
Proof.
  revert b.
  induction a as [|x a IH]; intros [|y b]; cbn [UTF16.compare_units];
    try reflexivity.
  rewrite (N.compare_antisym x y).
  destruct (x ?= y)%N; cbn [CompOpp]; [apply IH | reflexivity..].
Qed.

Lemma compare_units_lt_trans (a b c : list N) :
  UTF16.compare_units a b = Lt -> UTF16.compare_units b c = Lt ->
  UTF16.compare_units a c = Lt.
Proof.
  revert b c.
  induction a as [|x a IH]; intros [|y b] [|z c]; cbn [UTF16.compare_units];
    try discriminate; try reflexivity.
  destruct (x ?= y)%N eqn:Exy; try discriminate;
    destruct (y ?= z)%N eqn:Eyz; try discriminate; intros Hab Hbc.
  - apply N.compare_eq_iff in Exy, Eyz. subst. rewrite N.compare_refl.
    now apply (IH b).
  - apply N.compare_eq_iff in Exy. subst. now rewrite Eyz.
  - apply N.compare_eq_iff in Eyz. subst. now rewrite Exy.
  - apply N.compare_lt_iff in Exy, Eyz.
    assert (x < z)%N as Hxz by (now apply N.lt_trans with y).
    apply N.compare_lt_iff in Hxz. now rewrite Hxz.
Qed.

Lemma compare_refl (a : string) : UTF16.compare a a = Eq.
Proof.
  unfold UTF16.compare. rewrite compare_units_refl.
  now apply (OrderedTypeEx.String_as_OT.cmp_eq a a).
Qed.

Lemma compare_eq (a b : string) : UTF16.compare a b = Eq -> a = b.
Proof.
  unfold UTF16.compare.
  destruct (UTF16.compare_units _ _); try discriminate.
  apply String.compare_eq_iff.
Qed.

Lemma compare_antisym (a b : string) :
  UTF16.compare b a = CompOpp (UTF16.compare a b).
Proof.
  unfold UTF16.compare.
  rewrite (compare_units_antisym (UTF16.code_units a) (UTF16.code_units b)).
  destruct (UTF16.compare_units _ _); cbn [CompOpp]; try reflexivity.
  apply String.compare_antisym.
Qed.

Lemma compare_lt_trans (a b c : string) :
  UTF16.compare a b = Lt -> UTF16.compare b c = Lt -> UTF16.compare a c = Lt.
Proof.
  unfold UTF16.compare.
  destruct (UTF16.compare_units (UTF16.code_units a) (UTF16.code_units b)) eqn:Eab;
    try discriminate;
    destruct (UTF16.compare_units (UTF16.code_units b) (UTF16.code_units c)) eqn:Ebc;
    try discriminate; intros Hab Hbc.
  - apply compare_units_eq in Eab, Ebc. rewrite Eab, Ebc, compare_units_refl.
    apply (OrderedTypeEx.String_as_OT.cmp_lt a c).
    apply OrderedTypeEx.String_as_OT.lt_trans with b;
      now apply OrderedTypeEx.String_as_OT.cmp_lt.
  - apply compare_units_eq in Eab. now rewrite Eab, Ebc.
  - apply compare_units_eq in Ebc. now rewrite <- Ebc, Eab.
  - now rewrite (compare_units_lt_trans _ _ _ Eab Ebc).
Qed.

Lemma leb_refl (a : string) : UTF16.leb a a = true.
Proof.
  unfold UTF16.leb. now rewrite compare_refl.
Qed.

Lemma leb_trans (a b c : string) :
  UTF16.leb a b = true -> UTF16.leb b c = true -> UTF16.leb a c = true.
Proof.
  unfold UTF16.leb.
  destruct (UTF16.compare a b) eqn:Eab; try discriminate;
    destruct (UTF16.compare b c) eqn:Ebc; try discriminate; intros _ _.
  - apply compare_eq in Eab, Ebc. subst. now rewrite compare_refl.
  - apply compare_eq in Eab. subst. now rewrite Ebc.
  - apply compare_eq in Ebc. subst. now rewrite Eab.
  - now rewrite (compare_lt_trans _ _ _ Eab Ebc).
Qed.

Lemma leb_false (a b : string) : UTF16.leb a b = false -> UTF16.leb b a = true.
Proof.
  unfold UTF16.leb. rewrite (compare_antisym a b).
  now destruct (UTF16.compare a b).
Qed.

Lemma leb_antisym (a b : string) :
  UTF16.leb a b = true -> UTF16.leb b a = true -> a = b.
Proof.
  unfold UTF16.leb. rewrite (compare_antisym a b).
  destruct (UTF16.compare a b) eqn:E; cbn [CompOpp]; try discriminate.
  intros _ _. now apply compare_eq.
Qed.

Lemma sort_insert_permutation (x : string) (l : list string) :
  Permutation (x :: l) (sort_insert x l).
Proof.
  induction l as [|y l IH]; cbn [sort_insert]; [reflexivity|].
  destruct (UTF16.leb x y); [reflexivity|].
  rewrite perm_swap. now constructor.
Qed.

(** [sort] keeps the elements, *)
Lemma sort_permutation (l : list string) : Permutation l (sort l).
Proof.
  induction l as [|x l IH]; cbn [sort fold_right]; [reflexivity|].
  rewrite <- sort_insert_permutation. now constructor.
Qed.

Lemma sort_In (l : list string) (x : string) : In x (sort l) <-> In x l.
Proof.
  split; apply Permutation_in;
    [symmetry|]; apply sort_permutation.
Qed.

Lemma sort_Forall (P : string -> Prop) (l : list string) :
  Forall P l -> Forall P (sort l).
Proof.
  rewrite !Forall_forall. intros H x Hx. apply H. now apply sort_In.
Qed.

Lemma sort_insert_sorted (x : string) (l : list string) :
  Sorted (fun a b => UTF16.leb a b = true) l ->
  Sorted (fun a b => UTF16.leb a b = true) (sort_insert x l).
Proof.
  induction 1 as [|y l Hl IH Hy]; cbn [sort_insert].
  - repeat constructor.
  - destruct (UTF16.leb x y) eqn:E.
    + repeat constructor; assumption.
    + constructor; [exact IH|].
      destruct Hy as [|z l' Hz]; cbn [sort_insert].
      * constructor. now apply leb_false.
      * destruct (UTF16.leb x z); constructor;
          [now apply leb_false | exact Hz].
Qed.

(** puts them in ascending order, *)
Lemma sort_sorted (l : list string) :
  Sorted (fun a b => UTF16.leb a b = true) (sort l).
Proof.
  induction l as [|x l IH]; cbn [sort fold_right]; [constructor|].
  now apply sort_insert_sorted.
Qed.

Lemma sort_insert_comm (x y : string) (l : list string) :
  sort_insert x (sort_insert y l) = sort_insert y (sort_insert x l).
Proof.
  induction l as [|z l IH]; cbn [sort_insert].
  - destruct (UTF16.leb x y) eqn:Exy, (UTF16.leb y x) eqn:Eyx;
      try reflexivity.
    + now rewrite (leb_antisym _ _ Exy Eyx).
    + apply leb_false in Exy. congruence.
  - destruct (UTF16.leb y z) eqn:Eyz, (UTF16.leb x z) eqn:Exz;
      cbn [sort_insert]; rewrite ?Eyz, ?Exz.
    + destruct (UTF16.leb x y) eqn:Exy, (UTF16.leb y x) eqn:Eyx;
        try reflexivity.
      * now rewrite (leb_antisym _ _ Exy Eyx).
      * apply leb_false in Exy. congruence.
    + destruct (UTF16.leb x y) eqn:Exy; [|reflexivity].
      rewrite (leb_trans _ _ _ Exy Eyz) in Exz. discriminate.
    + destruct (UTF16.leb y x) eqn:Eyx; [|reflexivity].
      rewrite (leb_trans _ _ _ Eyx Exz) in Eyz. discriminate.
    + now rewrite IH.
Qed.

(** and does not depend on the order in which they are given. *)
Lemma sort_unique (l l' : list string) : Permutation l l' -> sort l = sort l'.
Proof.
  induction 1 as [|x l l' _ IH|x y l|l l' l'' _ IH1 _ IH2];
    cbn [sort fold_right].
  - reflexivity.
  - fold (sort l) (sort l'). now rewrite IH.
  - apply sort_insert_comm.
  - congruence.
Qed.

End SortFacts.

(** The order is that of the code units, not of the bytes: a character
    beyond the basic plane is a pair of surrogates, which come before the
    last characters of the basic plane. *)
Example sort_follows_code_units :
  UTF16.code_units "a😀～" = [0x61; 0xD83D; 0xDE00; 0xFF5E]%N
  /\ sort ["/d/～"; "/d/😀"; "/d/é"; "/d/z"; "/d/Z"]
     = ["/d/Z"; "/d/z"; "/d/é"; "/d/😀"; "/d/～"].
Proof.
  split; reflexivity.
Qed.

(** ** Loops and hosts *)

Lemma each_invariant {A B : Type} (I : B -> Prop) (host : Host)
      (fn : B -> A -> Eff B) (l : list A) (acc : B) (events : list Event) (b : B) :
  (forall acc' x events' b',
      I acc' -> fn acc' x host = (events', Returned b') -> I b') ->
  I acc ->
  each l fn acc host = (events, Returned b) ->
  I b.
Proof.
  intros Hfn. revert acc events.
  induction l as [|x l IH]; intros acc events Hacc H; cbn [each] in H.
  - unfold ret in H. now injection H as _ <-.
  - apply bind_inv in H. destruct H as (ev1 & acc' & ev2 & H1 & H2 & _).
    eapply IH; [|exact H2]. eapply Hfn; [exact Hacc | exact H1].
Qed.

Lemma each_returns {A B : Type} (host : Host) (fn : B -> A -> Eff B)
      (l : list A) (acc : B) :
  Forall (fun x => forall acc', exists events b, fn acc' x host = (events, Returned b)) l ->
  exists events b, each l fn acc host = (events, Returned b).
Proof.
  intros H. revert acc.
  induction H as [|x l Hx _ IH]; intros acc; cbn [each].
  - now exists [], acc.
  - destruct (Hx acc) as (ev1 & acc' & E1).
    destruct (IH acc') as (ev2 & b & E2).
    exists (ev1 ++ ev2), b.
    rewrite (bind_returned _ _ _ _ _ E1). now rewrite E2.
Qed.

Lemma bind_same {A B : Type} (m m' : Eff A) (k k' : A -> Eff B) (host host' : Host) :
  m host = m' host' ->
  (forall a, k a host = k' a host') ->
  bind m k host = bind m' k' host'.
Proof.
  intros Hm Hk. unfold bind. rewrite Hm.
  destruct (m' host') as [events [a|e|]]; [now rewrite Hk | reflexivity..].
Qed.

(** Two runs whose first parts end alike, up to a relation [R] on what they
    return, and whose continuations agree on related values, end alike. *)
Lemma bind_related {A B : Type} (R : A -> A -> Prop)
      (m m' : Eff A) (k k' : A -> Eff B) (host host' : Host) :
  match m host, m' host' with
  | (events, Returned a), (events', Returned a') => events = events' /\ R a a'
  | (events, Threw e), (events', Threw e') => events = events' /\ e = e'
  | (events, OutOfFuel), (events', OutOfFuel) => events = events'
  | _, _ => False
  end ->
  (forall a a', R a a' -> k a host = k' a' host') ->
  bind m k host = bind m' k' host'.
Proof.
  intros Hm Hk. unfold bind.
  destruct (m host) as [events [a|e|]], (m' host') as [events' [a'|e'|]];
    try contradiction.
  - destruct Hm as [-> HR]. now rewrite (Hk _ _ HR).
  - now destruct Hm as [-> ->].
  - now subst.
Qed.

Lemma each_same {A B : Type} (fn fn' : B -> A -> Eff B) (host host' : Host)
      (l : list A) (acc : B) :
  (forall acc' x, fn acc' x host = fn' acc' x host') ->
  each l fn acc host = each l fn' acc host'.
Proof.
  intros Hfn. revert acc.
  induction l as [|x l IH]; intros acc; cbn [each]; [reflexivity|].
  apply bind_same; [apply Hfn | intros a; apply IH].
Qed.

Lemma fs_statSync_same (host host' : Host) (path : string) :
  statSync host path = statSync host' path ->
  fs_statSync path host = fs_statSync path host'.
Proof.
  intros E. unfold fs_statSync. now rewrite E.
Qed.

Lemma kept_nothing (host : Host) (decision : string -> Kind -> bool)
      (dirPaths : list string) :
  (forall singlePath stats, decision singlePath stats = false) ->
  kept host decision dirPaths = [].
Proof.
  intros H. unfold kept.
  induction dirPaths as [|x l IH]; cbn [filter]; [reflexivity|].
  destruct (statSync host x); [rewrite H|]; exact IH.
Qed.

Lemma kept_Forall (P : string -> Prop) (host : Host)
      (decision : string -> Kind -> bool) (dirPaths : list string) :
  Forall P dirPaths -> Forall P (kept host decision dirPaths).
Proof.
  rewrite !Forall_forall. intros H x Hx. apply H.
  unfold kept in Hx. now apply filter_In in Hx.
Qed.

(** ** Recursive scanner *)

Section ScannerProperties.

Context {M : Minimatch}.

Lemma filterPaths_same (host host' : Host) (dirPaths includes excludes : list string)
      (minimatchOptions : option MinimatchOptions) :
  (forall path, statSync host path = statSync host' path) ->
  filterPaths dirPaths includes excludes minimatchOptions host
  = filterPaths dirPaths includes excludes minimatchOptions host'.
Proof.
  intros Hstat. unfold filterPaths. apply each_same.
  intros acc x. unfold filterEntry.
  apply bind_same; [now apply fs_statSync_same|].
  intros stats.
  repeat match goal with
         | |- context [if ?b then _ else _] => destruct b
         end; reflexivity.
Qed.

(** A scan that returned went through its steps. *)
Lemma scanSingleDir_inv (host : Host) (fuel : nat) (dirPath : string)
      (includes excludes : list string) (minimatchOptions : option MinimatchOptions)
      (events : list Event) (found : list string) :
  scanSingleDir fuel dirPath includes excludes minimatchOptions host
  = (events, Returned found) ->
  exists fuel' names events1 allowed events2,
    fuel = S fuel'
    /\ readdirSync host dirPath = Some names
    /\ filterPaths (sort (entryPaths host dirPath names)) includes excludes
                   minimatchOptions host
       = (events1, Returned allowed)
    /\ each allowed
            (scanEntry (fun singlePath =>
                          scanSingleDir fuel' singlePath includes excludes
                                        minimatchOptions))
            [] host
       = (events2, Returned found).
Proof.
  destruct fuel as [|fuel']; [discriminate|].
  cbn [scanSingleDir]. intros H.
  apply bind_inv in H. destruct H as (ev1 & names & ev2 & H1 & H2 & _).
  apply bind_inv in H2. destruct H2 as (ev3 & here & ev4 & H3 & H4 & _).
  apply bind_inv in H4. destruct H4 as (ev5 & allowed & ev6 & H5 & H6 & _).
  unfold ask in H3. injection H3 as _ <-.
  unfold fs_readdirSync in H1.
  destruct (readdirSync host dirPath) as [names'|] eqn:E; [|discriminate].
  injection H1 as _ <-.
  now exists fuel', names', ev5, allowed, ev6.
Qed.

(** A scan whose listing and filtering succeeded continues with the loop
    over the allowed entries. *)
Lemma scanSingleDir_filtered (host : Host) (fuel : nat) (dirPath : string)
      (includes excludes : list string) (minimatchOptions : option MinimatchOptions)
      (names : list string) (events1 : list Event) (allowed : list string) :
  readdirSync host dirPath = Some names ->
  filterPaths (sort (entryPaths host dirPath names)) includes excludes
              minimatchOptions host
  = (events1, Returned allowed) ->
  let loop :=
    each allowed
         (scanEntry (fun singlePath =>
                       scanSingleDir fuel singlePath includes excludes
                                     minimatchOptions))
         [] host in
  scanSingleDir (S fuel) dirPath includes excludes minimatchOptions host
  = (ReadDir dirPath :: events1 ++ fst loop, snd loop).
Proof.
  intros Hdir Hfilter loop. cbn [scanSingleDir].
  unfold bind at 1. unfold fs_readdirSync. rewrite Hdir.
  unfold bind at 1. unfold ask.
  fold (entryPaths host dirPath names).
  rewrite (bind_returned _ _ _ _ _ Hfilter). reflexivity.
Qed.

Lemma scanEntry_files (host : Host) (scan : string -> Eff (list string))
      (matchingPaths : list string) (singlePath : string)
      (events : list Event) (found : list string) :
  (forall events' subMatches,
      scan singlePath host = (events', Returned subMatches) ->
      Forall (fun p => statSync host p = Some KFile) subMatches) ->
  Forall (fun p => statSync host p = Some KFile) matchingPaths ->
  scanEntry scan matchingPaths singlePath host = (events, Returned found) ->
  Forall (fun p => statSync host p = Some KFile) found.
Proof.
  intros Hscan Hacc H. unfold scanEntry in H.
  apply bind_inv in H. destruct H as (ev1 & stats & ev2 & H1 & H2 & _).
  apply fs_statSync_inv in H1. destruct H1 as [Hs _].
  destruct stats; cbn [isDirectory isFile] in H2.
  - unfold ret in H2. injection H2 as _ <-.
    apply Forall_app. split; [exact Hacc | now constructor].
  - apply bind_inv in H2. destruct H2 as (ev3 & sub & ev4 & H3 & H4 & _).
    apply Hscan in H3.
    destruct (JS.nonempty sub); unfold ret in H4; injection H4 as _ <-;
      [apply Forall_app; now split | exact Hacc].
  - unfold ret in H2. now injection H2 as _ <-.
Qed.

(** Every path a scan returns is a file. *)
Lemma scanSingleDir_files (host : Host) (fuel : nat) (dirPath : string)
      (includes excludes : list string) (minimatchOptions : option MinimatchOptions)
      (events : list Event) (found : list string) :
  scanSingleDir fuel dirPath includes excludes minimatchOptions host
  = (events, Returned found) ->
  Forall (fun p => statSync host p = Some KFile) found.
Proof.
  revert dirPath events found.
  induction fuel as [|fuel IH]; intros dirPath events found H;
    apply scanSingleDir_inv in H;
    destruct H as (fuel' & names & ev1 & allowed & ev2 & Hf & _ & _ & Hloop);
    [discriminate|].
  injection Hf as <-.
  eapply (each_invariant (Forall (fun p => statSync host p = Some KFile)));
    [|constructor|exact Hloop].
  intros acc x ev b Hacc Hx.
  eapply scanEntry_files; [|exact Hacc|exact Hx].
  intros ev' sub Hsub. eapply IH. exact Hsub.
Qed.

(** A scan does not depend on the order in which directories list their
    entries: the listing is sorted before anything else is done with it. *)
Lemma scanSingleDir_same_snapshot (host host' : Host) (fuel : nat) (dirPath : string)
      (includes excludes : list string) (minimatchOptions : option MinimatchOptions) :
  same_snapshot host host' ->
  scanSingleDir fuel dirPath includes excludes minimatchOptions host
  = scanSingleDir fuel dirPath includes excludes minimatchOptions host'.
Proof.
  intros [Hcwd _ Hstat Hdir]. revert dirPath.
  induction fuel as [|fuel IH]; intros dirPath; [reflexivity|].
  cbn [scanSingleDir].
  apply (bind_related (@Permutation string)).
  { unfold fs_readdirSync.
    specialize (Hdir dirPath). unfold same_listing in Hdir.
    destruct (readdirSync host dirPath), (readdirSync host' dirPath);
      try contradiction; auto. }
  intros names names' Hperm.
  apply bind_same; [unfold ask; now rewrite Hcwd|].
  intros here.
  rewrite (SortFacts.sort_unique _ _
             (Permutation_map (fun subPath => Path.resolve here [dirPath; subPath])
                              Hperm)).
  apply bind_same; [now apply filterPaths_same|].
  intros allowed. apply each_same. intros acc x. unfold scanEntry.
  apply bind_same; [now apply fs_statSync_same|].
  intros stats. destruct (isDirectory stats);
    [|destruct (isFile stats); reflexivity].
  apply bind_same; [apply IH|].
  intros sub. destruct (JS.nonempty sub); reflexivity.
Qed.

(** On a host that can be scanned to the depth the fuel allows, a scan
    returns a list. *)
Lemma scanSingleDir_returns (host : Host) (fuel : nat) (dirPath : string)
      (includes excludes : list string) (minimatchOptions : option MinimatchOptions) :
  scannable host fuel dirPath ->
  exists events found,
    scanSingleDir fuel dirPath includes excludes minimatchOptions host
    = (events, Returned found).
Proof.
  revert dirPath.
  induction fuel as [|fuel IH]; intros dirPath H; cbn [scannable] in H;
    [contradiction|].
  destruct (readdirSync host dirPath) as [names|] eqn:Hdir; [|contradiction].
  apply SortFacts.sort_Forall in H.
  assert (Forall (fun p => statSync host p <> None)
                 (sort (entryPaths host dirPath names))) as Hstat.
  { eapply Forall_impl; [|exact H]. intros p Hp. cbv beta in Hp.
    destruct (statSync host p); [discriminate | contradiction]. }
  pose proof (filterPaths_returns host _ includes excludes minimatchOptions Hstat)
    as Hfilter.
  rewrite (scanSingleDir_filtered _ _ _ _ _ _ _ _ _ Hdir Hfilter). cbn zeta.
  apply (kept_Forall _ host (accepts includes excludes minimatchOptions)) in H.
  destruct (each_returns host
              (scanEntry (fun singlePath =>
                            scanSingleDir fuel singlePath includes excludes
                                          minimatchOptions))
              (kept host (accepts includes excludes minimatchOptions)
                    (sort (entryPaths host dirPath names))) [])
    as (ev & found & E).
  - eapply Forall_impl; [|exact H]. intros p Hp acc. cbv beta in Hp.
    unfold scanEntry.
    destruct (statSync host p) as [stats|] eqn:Hs; [|contradiction].
    rewrite (bind_returned _ _ _ _ _ (fs_statSync_some _ _ _ Hs)).
    destruct stats; cbn [isDirectory isFile]; try (eexists _, _; reflexivity).
    destruct (IH _ Hp) as (ev' & sub & E').
    rewrite (bind_returned _ _ _ _ _ E').
    destruct (JS.nonempty sub); eexists _, _; reflexivity.
  - rewrite E. eexists _, _. reflexivity.
Qed.

End ScannerProperties.

(** ** Top-level entry point *)

Lemma validatePatternArray_flat_map (patternArray : list string) (rules : option Rules) :
  validatePatternArray patternArray rules
  = flat_map (fun pattern_ => validatePattern pattern_ rules) patternArray.
Proof.
  unfold validatePatternArray.
  rewrite <- (app_nil_l (flat_map _ _)). generalize (@nil Violation) as acc.
  induction patternArray as [|p l IH]; intros acc; cbn [fold_left flat_map].
  - now rewrite app_nil_r.
  - rewrite IH. now rewrite app_assoc.
Qed.

Lemma logInvalidRuleFeedback_logs (violations : list Violation) (host : Host) :
  logInvalidRuleFeedback violations host
  = (map (fun violation => Logged (feedbackLine violation)) violations, Returned tt).
Proof.
  unfold logInvalidRuleFeedback.
  induction violations as [|v l IH]; cbn [each map]; [reflexivity|].
  rewrite (bind_returned _ _ host [Logged (feedbackLine v)] tt eq_refl).
  now rewrite IH.
Qed.

Lemma nonempty_false {A : Type} (l : list A) : JS.nonempty l = false <-> l = [].
Proof.
  destruct l; cbn; split; congruence.
Qed.

Section EntryPoint.

Context {M : Minimatch}.

(** With valid patterns [findFiles] is the scan of the resolved root with
    the rooted patterns. *)
Lemma findFiles_valid (host : Host) (fuel : nat) (rootPath : string)
      (includes excludes : list string) (minimatchOptions : option MinimatchOptions)
      (rules : option Rules) :
  validatePatternArray includes rules = [] ->
  validatePatternArray excludes rules = [] ->
  findFiles fuel rootPath includes excludes minimatchOptions rules host
  = scanSingleDir fuel (sanitisePath (resolvePath host rootPath))
      (addPathToPatterns (cwd host) (sanitisePath (resolvePath host rootPath)) includes)
      (addPathToPatterns (cwd host) (sanitisePath (resolvePath host rootPath)) excludes)
      minimatchOptions host.
Proof.
  intros Hi He. unfold findFiles. rewrite Hi, He. cbn [JS.nonempty orb].
  unfold bind, ret, ask. cbn [app].
  now destruct (scanSingleDir _ _ _ _ _ host).
Qed.

(** With an invalid pattern it logs one line per violation, includes
    first, and fails. *)
Lemma findFiles_invalid (host : Host) (fuel : nat) (rootPath : string)
      (includes excludes : list string) (minimatchOptions : option MinimatchOptions)
      (rules : option Rules) :
  validatePatternArray includes rules ++ validatePatternArray excludes rules <> [] ->
  findFiles fuel rootPath includes excludes minimatchOptions rules host
  = (map (fun violation => Logged (feedbackLine violation))
         (validatePatternArray includes rules ++ validatePatternArray excludes rules),
     Threw (FluidFailure
              "One or more glob patterns you have entered are invalid.  Cannot continue.")).
Proof.
  intros Hbad. unfold findFiles.
  destruct (validatePatternArray includes rules) as [|vi li] eqn:Ei,
           (validatePatternArray excludes rules) as [|ve le] eqn:Ee;
    cbn [JS.nonempty orb].
  - now contradiction Hbad.
  - unfold bind at 1. unfold bind at 1. unfold bind at 1. unfold ret at 1.
    rewrite logInvalidRuleFeedback_logs. unfold bind, fluid_fail.
    cbn [app]. now rewrite app_nil_r.
  - unfold bind at 1. unfold bind at 1. unfold bind at 1.
    rewrite logInvalidRuleFeedback_logs. unfold bind, ret, fluid_fail.
    cbn [app]. now rewrite !app_nil_r.
  - unfold bind at 1. unfold bind at 1. unfold bind at 1.
    rewrite logInvalidRuleFeedback_logs. unfold bind at 1.
    rewrite logInvalidRuleFeedback_logs. unfold fluid_fail.
    rewrite app_nil_r. now rewrite <- map_app.
Qed.

(** C5: when some include or exclude pattern violates the active rule
    set, [findFiles] logs one line for every violation of every pattern,
    includes before excludes, each naming the pattern and the rule's
    message, then fails with the one combined diagnostic.  This is the
    whole run: it holds on every host and for every fuel, so nothing was
    listed or stat'ed and no list of paths is produced. *)
Theorem findFiles_fails_on_invalid_patterns
        (host : Host) (fuel : nat) (rootPath : string)
        (includes excludes : list string)
        (minimatchOptions : option MinimatchOptions) (rules : option Rules) :
  (exists pattern_,
      In pattern_ (includes ++ excludes) /\ validatePattern pattern_ rules <> []) ->
  findFiles fuel rootPath includes excludes minimatchOptions rules host
  = (map (fun violation =>
            Logged ("ERROR: Pattern '" ++ glob violation ++ "' "
                    ++ error violation ++ ".")%string)
         (flat_map (fun pattern_ => validatePattern pattern_ rules)
                   (includes ++ excludes)),
     Threw (FluidFailure
              "One or more glob patterns you have entered are invalid.  Cannot continue.")).
Proof.
  intros (p & Hin & Hbad).
  rewrite flat_map_app, <- !validatePatternArray_flat_map.
  apply findFiles_invalid.
  rewrite !validatePatternArray_flat_map, <- flat_map_app.
  intros Hnil. apply Hbad.
  destruct (validatePattern p rules) as [|v l] eqn:E; [reflexivity|].
  assert (In v (flat_map (fun q => validatePattern q rules) (includes ++ excludes)))
    as Hv by (apply in_flat_map; exists p; rewrite E; split; [exact Hin | now left]).
  rewrite Hnil in Hv. contradiction.
Qed.

End EntryPoint.

Lemma findFiles_fails_on_invalid_patterns_witness :
  findFiles 0 "/fixture" ["**"] ["./**"] None None fixture
  = ([Logged "ERROR: Pattern '**' contains a leading wildcard.";
      Logged "ERROR: Pattern './**' contains a leading wildcard."],
     Threw (FluidFailure
              "One or more glob patterns you have entered are invalid.  Cannot continue.")).
Proof.
  rewrite (findFiles_fails_on_invalid_patterns fixture 0 "/fixture" ["**"] ["./**"]).
  - reflexivity.
  - exists "**". split; [left; reflexivity | discriminate].
Defined.

(** ** Polarity through rooting *)

Lemma positivePatterns_nil (patterns : list string) :
  positivePatterns patterns = [] <->
  Forall (fun pattern_ => JS.indexOf_is_0 pattern_ "!" = true) patterns.
Proof.
  unfold positivePatterns.
  induction patterns as [|p l IH]; cbn [filter]; [split; constructor|].
  destruct (JS.indexOf_is_0 p "!") eqn:E; cbn [negb].
  - rewrite IH. split; [now constructor | now inversion 1].
  - split; [discriminate | inversion 1; congruence].
Qed.

Lemma addPathToPattern_negated (here sanitisedPath pattern_ : string) :
  JS.indexOf_is_0 pattern_ "!" = true ->
  JS.indexOf_is_0 (addPathToPattern here sanitisedPath pattern_) "!" = true.
Proof.
  intros H. pose proof H as H'. apply indexOf_is_0_char in H'.
  destruct H' as [q ->].
  unfold addPathToPattern. rewrite positivePattern_negated.
  assert (String.eqb q (String "!" q) = false) as ->
      by (apply String.eqb_neq, string_cons_neq).
  destruct (Nat.ltb 1 _); [|exact H]. cbn [negb].
  cbn [String.append]. now rewrite indexOf_is_0_head.
Qed.

Lemma addPathToPatterns_no_positive (here rootPath : string) (patterns : list string) :
  positivePatterns patterns = [] ->
  positivePatterns (addPathToPatterns here rootPath patterns) = [].
Proof.
  rewrite !positivePatterns_nil. unfold addPathToPatterns.
  intros H. apply Forall_map. eapply Forall_impl; [|exact H].
  intros p. apply addPathToPattern_negated.
Qed.

(** ** Hosts given by tables *)

Lemma lookup_backwards (dirs : list (string * list string)) (path : string) :
  lookup (backwards dirs) path = option_map (@rev string) (lookup dirs path).
Proof.
  induction dirs as [|[k v] dirs IH]; cbn [backwards map lookup fst snd];
    [reflexivity|].
  destruct (String.eqb k path); [reflexivity | exact IH].
Qed.

Lemma tableHost_backwards (dirs : list (string * list string))
      (entries : list (string * Kind)) :
  same_snapshot (tableHost dirs entries) (tableHost (backwards dirs) entries).
Proof.
  split; cbn [cwd resolvePath statSync readdirSync tableHost]; try reflexivity.
  - intros path. rewrite lookup_backwards. now destruct (lookup dirs path).
  - intros path. rewrite lookup_backwards.
    destruct (lookup dirs path); cbn [option_map same_listing];
      [apply Permutation_rev | exact I].
Qed.

(** ** Claims on the scanner *)

Section ScannerClaims.

Context {M : Minimatch}.

Lemma accepts_no_positive_include (includes excludes : list string)
      (minimatchOptions : option MinimatchOptions)
      (singlePath : string) (stats : Kind) :
  positivePatterns includes = [] ->
  accepts includes excludes minimatchOptions singlePath stats = false.
Proof.
  intros H. unfold accepts. now rewrite H.
Qed.

Lemma scanSingleDir_no_positive_include
      (host : Host) (fuel : nat) (dirPath : string) (includes excludes : list string)
      (minimatchOptions : option MinimatchOptions)
      (events : list Event) (found : list string) :
  positivePatterns includes = [] ->
  scanSingleDir fuel dirPath includes excludes minimatchOptions host
  = (events, Returned found) ->
  found = [].
Proof.
  intros Hinc H. apply scanSingleDir_inv in H.
  destruct H as (fuel' & names & ev1 & allowed & ev2 & _ & _ & Hfilter & Hloop).
  pose proof (filterPaths_inv _ _ _ _ _ _ _ Hfilter) as Hstat.
  rewrite (filterPaths_returns _ _ _ _ _ Hstat) in Hfilter.
  rewrite kept_nothing in Hfilter
    by (intros; now apply accepts_no_positive_include).
  injection Hfilter as _ <-. cbn [each] in Hloop. unfold ret in Hloop.
  now injection Hloop as _ <-.
Qed.

Lemma scanSingleDir_no_positive_include_returns
      (host : Host) (fuel : nat) (dirPath : string) (includes excludes : list string)
      (minimatchOptions : option MinimatchOptions) (names : list string) :
  positivePatterns includes = [] ->
  readdirSync host dirPath = Some names ->
  Forall (fun p => statSync host p <> None) (entryPaths host dirPath names) ->
  snd (scanSingleDir (S fuel) dirPath includes excludes minimatchOptions host)
  = Returned [].
Proof.
  intros Hinc Hdir Hstat. apply SortFacts.sort_Forall in Hstat.
  rewrite (scanSingleDir_filtered _ _ _ _ _ _ _ _ _ Hdir
             (filterPaths_returns _ _ _ _ _ Hstat)).
  cbn zeta. rewrite kept_nothing
    by (intros; now apply accepts_no_positive_include).
  reflexivity.
Qed.

(** C4: when the includes hold no positive pattern a scan never returns
    anything but the empty list, whatever the excludes and the host are:
    neither [scanSingleDir] nor [findFiles] can return a path; and where
    the directory can be listed and its entries stat'ed they do return,
    the empty list, without descending into any directory. *)
Theorem no_positive_include_empty_result
        (host : Host) (includes excludes : list string)
        (minimatchOptions : option MinimatchOptions) :
  positivePatterns includes = [] ->
  (forall fuel dirPath events found,
      scanSingleDir fuel dirPath includes excludes minimatchOptions host
      = (events, Returned found) ->
      found = [])
  /\ (forall fuel rootPath rules events found,
         findFiles fuel rootPath includes excludes minimatchOptions rules host
         = (events, Returned found) ->
         found = [])
  /\ (forall fuel dirPath names,
         readdirSync host dirPath = Some names ->
         Forall (fun p => statSync host p <> None) (entryPaths host dirPath names) ->
         snd (scanSingleDir (S fuel) dirPath includes excludes minimatchOptions host)
         = Returned [])
  /\ (forall fuel rootPath rules names,
         validatePatternArray includes rules = [] ->
         validatePatternArray excludes rules = [] ->
         readdirSync host (sanitisePath (resolvePath host rootPath)) = Some names ->
         Forall (fun p => statSync host p <> None)
                (entryPaths host (sanitisePath (resolvePath host rootPath)) names) ->
         snd (findFiles (S fuel) rootPath includes excludes minimatchOptions rules host)
         = Returned []).
Proof.
  intros Hinc. repeat split.
  - intros fuel dirPath events found.
    now apply scanSingleDir_no_positive_include.
  - intros fuel rootPath rules events found H.
    destruct (validatePatternArray includes rules) as [|vi li] eqn:Ei;
      [destruct (validatePatternArray excludes rules) as [|ve le] eqn:Ee|].
    + rewrite (findFiles_valid _ _ _ _ _ _ _ Ei Ee) in H.
      eapply scanSingleDir_no_positive_include; [|exact H].
      now apply addPathToPatterns_no_positive.
    + rewrite findFiles_invalid in H by (rewrite Ei, Ee; discriminate).
      discriminate.
    + rewrite findFiles_invalid in H by (rewrite Ei; discriminate).
      discriminate.
  - intros fuel dirPath names.
    now apply scanSingleDir_no_positive_include_returns.
  - intros fuel rootPath rules names Ei Ee Hdir Hstat.
    rewrite (findFiles_valid _ _ _ _ _ _ _ Ei Ee).
    eapply scanSingleDir_no_positive_include_returns; eauto.
    now apply addPathToPatterns_no_positive.
Qed.

Lemma findFiles_files (host : Host) (fuel : nat) (rootPath : string)
      (includes excludes : list string) (minimatchOptions : option MinimatchOptions)
      (rules : option Rules) (events : list Event) (found : list string) :
  findFiles fuel rootPath includes excludes minimatchOptions rules host
  = (events, Returned found) ->
  Forall (fun p => statSync host p = Some KFile) found.
Proof.
  intros H.
  destruct (validatePatternArray includes rules) as [|vi li] eqn:Ei;
    [destruct (validatePatternArray excludes rules) as [|ve le] eqn:Ee|].
  - rewrite (findFiles_valid _ _ _ _ _ _ _ Ei Ee) in H.
    eapply scanSingleDir_files. exact H.
  - rewrite findFiles_invalid in H by (rewrite Ei, Ee; discriminate).
    discriminate.
  - rewrite findFiles_invalid in H by (rewrite Ei; discriminate).
    discriminate.
Qed.

Lemma findFiles_same_snapshot (host host' : Host) (fuel : nat) (rootPath : string)
      (includes excludes : list string) (minimatchOptions : option MinimatchOptions)
      (rules : option Rules) :
  same_snapshot host host' ->
  findFiles fuel rootPath includes excludes minimatchOptions rules host
  = findFiles fuel rootPath includes excludes minimatchOptions rules host'.
Proof.
  intros Hsame.
  destruct (validatePatternArray includes rules) as [|vi li] eqn:Ei;
    [destruct (validatePatternArray excludes rules) as [|ve le] eqn:Ee|].
  - rewrite !(findFiles_valid _ _ _ _ _ _ _ Ei Ee).
    rewrite <- (same_cwd _ _ Hsame), <- (same_resolvePath _ _ Hsame).
    now apply scanSingleDir_same_snapshot.
  - rewrite !findFiles_invalid by (rewrite Ei, Ee; discriminate). reflexivity.
  - rewrite !findFiles_invalid by (rewrite Ei; discriminate). reflexivity.
Qed.

End ScannerClaims.

Lemma no_positive_include_empty_result_witness :
  positivePatterns ["!./src/**/*.js"] = [] /\
  snd (findFiles 1 "/fixture" ["!./src/**/*.js"] ["!./src/**/deeper/*.js"]
                 None None fixture)
  = Returned [].
Proof.
  split; [reflexivity|].
  destruct (no_positive_include_empty_result
              fixture ["!./src/**/*.js"] ["!./src/**/deeper/*.js"] None eq_refl)
    as (_ & _ & _ & H).
  apply (H 0 "/fixture" None
           ["src"; "root-file.js"; "tests"; ".dot-file.js"; "node_modules"]);
    try reflexivity.
  repeat constructor; discriminate.
Defined.

(** ** Directory pre-check *)

Lemma nth_error_after {A : Type} (before l : list A) :
  nth_error (before ++ l) (List.length before) = nth_error l 0.
Proof.
  induction before as [|x before IH]; [reflexivity | exact IH].
Qed.

Lemma wildcard_literal (pat s : string) :
  contains (Ascii.eqb "*") pat = false ->
  Glob.wildcard pat s = true ->
  pat = s.
Proof.
  unfold contains. revert s.
  induction pat as [|c pat IH]; intros s Hlit H; cbn [Glob.wildcard] in H.
  - now destruct s.
  - cbn [list_ascii_of_string existsb] in Hlit.
    apply orb_false_iff in Hlit. destruct Hlit as [Hc Hlit].
    rewrite Ascii.eqb_sym, Hc in H.
    destruct s as [|c' s]; [discriminate|].
    apply andb_true_iff in H. destruct H as [Hcc H].
    apply Ascii.eqb_eq in Hcc. subst c'. f_equal. now apply IH.
Qed.

Lemma segment_wildcard (options : MinimatchOptions) (pat s : string) :
  Glob.segment options pat s = true -> Glob.wildcard pat s = true.
Proof.
  unfold Glob.segment. now destruct (_ && _ && _).
Qed.

(** The loop answers [true] when the directory's segments are the first
    segments of a path the pattern matches and the pattern is literal up to
    its first [**]. *)
Lemma dirMightMatch_loop_conservative (options : MinimatchOptions)
      (dirSegments below : list string) :
  forall (patternSegments donePattern doneDir : list string),
    List.length donePattern = List.length doneDir ->
    literal_before_globstar patternSegments = true ->
    Glob.segments options patternSegments (dirSegments ++ below) = true ->
    dirMightMatch_loop (donePattern ++ patternSegments) (doneDir ++ dirSegments)
                       (List.length doneDir) (List.length dirSegments)
    = true.
Proof.
  induction dirSegments as [|d dirSegments IH];
    intros patternSegments donePattern doneDir Hlen Hlit Hmatch;
    cbn [List.length dirMightMatch_loop]; [reflexivity|].
  rewrite <- Hlen at 1. rewrite !nth_error_after.
  destruct patternSegments as [|p patternSegments]; [discriminate|].
  cbn [nth_error strict_eq].
  cbn [literal_before_globstar Glob.segments app] in Hlit, Hmatch.
  destruct (String.eqb p "**") eqn:Ep; [reflexivity|].
  apply andb_true_iff in Hlit. destruct Hlit as [Hp Hlit].
  apply andb_true_iff in Hmatch. destruct Hmatch as [Hd Hmatch].
  apply negb_true_iff in Hp.
  apply segment_wildcard, (wildcard_literal _ _ Hp) in Hd. subst d.
  rewrite <- Hlen at 1. rewrite nth_error_after. cbn [nth_error].
  rewrite String.eqb_refl. cbn [negb].
  replace (donePattern ++ p :: patternSegments)
    with ((donePattern ++ [p]) ++ patternSegments) by now rewrite <- app_assoc.
  replace (doneDir ++ p :: dirSegments)
    with ((doneDir ++ [p]) ++ dirSegments) by now rewrite <- app_assoc.
  replace (S (List.length doneDir)) with (List.length (doneDir ++ [p]))
    by (rewrite length_app; cbn; lia).
  apply IH; [rewrite !length_app; cbn; lia | exact Hlit | exact Hmatch].
Qed.

(** On the patterns whose segments are literal up to the first [**], the
    pre-check is conservative with respect to the modelled matcher. *)
Lemma dirMightMatch_conservative_on_literal_prefix
      (options : MinimatchOptions) (pattern_ dirPath filePath : string) :
  literal_before_globstar (JS.split "/" pattern_) = true ->
  strict_ancestor dirPath filePath ->
  Glob.matches filePath pattern_ options = true ->
  dirMightMatch dirPath pattern_ = true.
Proof.
  intros Hlit (below & _ & Hsplit) Hmatch.
  unfold dirMightMatch. unfold Glob.matches in Hmatch.
  destruct (JS.indexOf_found pattern_ "/"); [|reflexivity].
  rewrite andb_false_r in Hmatch. rewrite Hsplit in Hmatch.
  apply (dirMightMatch_loop_conservative options _ below _ [] []);
    [reflexivity | exact Hlit | exact Hmatch].
Qed.

(** C1: the pre-check is not conservative.  A pattern segment holding a
    single [*] is compared literally with the directory's name, so the
    directory [/fixture/src/deep] is pruned although the file
    [/fixture/src/deep/deep-file.js] beneath it matches the pattern, and
    [findFiles] returns nothing. *)
Theorem dirMightMatch_prunes_wildcard_segment :
  strict_ancestor "/fixture/src/deep" "/fixture/src/deep/deep-file.js"
  /\ statSync fixture "/fixture/src/deep/deep-file.js" = Some KFile
  /\ minimatch "/fixture/src/deep/deep-file.js" "/fixture/src/*/deep-file.js" noOptions
     = true
  /\ dirMightMatch "/fixture/src/deep" "/fixture/src/*/deep-file.js" = false
  /\ snd (findFiles 4 "/fixture" ["./src/*/deep-file.js"] [] None None fixture)
     = Returned [].
Proof.
  split; [|repeat split].
  exists ["deep-file.js"]. split; [discriminate | reflexivity].
Qed.

(** ** Splitting and joining *)

Lemma append_assoc (a b c : string) : ((a ++ b) ++ c = a ++ (b ++ c))%string.
Proof.
  induction a as [|x a IH]; cbn [String.append]; [reflexivity | now rewrite IH].
Qed.

Lemma append_empty_r (a : string) : (a ++ "" = a)%string.
Proof.
  induction a as [|x a IH]; cbn [String.append]; [reflexivity | now rewrite IH].
Qed.

Lemma split_nonempty (sep : ascii) (s : string) : JS.split sep s <> [].
Proof.
  destruct s as [|c s]; cbn [JS.split]; [discriminate|].
  destruct (Ascii.eqb c sep); [discriminate|].
  destruct (JS.split sep s); discriminate.
Qed.

Lemma split_app (sep : ascii) (a b : string) :
  JS.split sep (a ++ String sep b) = JS.split sep a ++ JS.split sep b.
Proof.
  induction a as [|c a IH]; cbn [String.append JS.split app].
  - now rewrite Ascii.eqb_refl.
  - rewrite IH. destruct (Ascii.eqb c sep); [reflexivity|].
    pose proof (split_nonempty sep a) as Hne.
    destruct (JS.split sep a); [contradiction | reflexivity].
Qed.

Lemma join_split (sep : ascii) (s : string) :
  JS.join (String sep "") (JS.split sep s) = s.
Proof.
  unfold JS.join.
  induction s as [|c s IH]; cbn [JS.split]; [reflexivity|].
  pose proof (split_nonempty sep s) as Hne.
  destruct (Ascii.eqb_spec c sep) as [->|Hc];
    destruct (JS.split sep s) as [|seg segs]; try contradiction.
  - cbn [String.concat String.append] in *. now rewrite IH.
  - destruct segs; cbn [String.concat String.append] in *; now rewrite IH.
Qed.

Lemma split_separator_free (sep : ascii) (s : string) :
  Forall (fun seg => contains (Ascii.eqb sep) seg = false) (JS.split sep s).
Proof.
  induction s as [|c s IH]; cbn [JS.split]; [now repeat constructor|].
  destruct (Ascii.eqb c sep) eqn:Ec; [now constructor|].
  pose proof (split_nonempty sep s) as Hne.
  destruct (JS.split sep s) as [|seg segs]; [contradiction|].
  inversion IH as [|? ? Hseg Hsegs]; subst. constructor; [|exact Hsegs].
  unfold contains in *. cbn [list_ascii_of_string existsb].
  now rewrite Ascii.eqb_sym, Ec.
Qed.

Lemma split_length_contains (sep : ascii) (s : string) :
  Nat.ltb 1 (List.length (JS.split sep s)) = contains (Ascii.eqb sep) s.
Proof.
  unfold contains.
  induction s as [|c s IH]; cbn [JS.split list_ascii_of_string existsb];
    [reflexivity|].
  pose proof (split_nonempty sep s) as Hne.
  rewrite (Ascii.eqb_sym sep c).
  destruct (Ascii.eqb c sep); cbn [orb].
  - destruct (JS.split sep s); [contradiction | reflexivity].
  - destruct (JS.split sep s); [contradiction | exact IH].
Qed.

Lemma separator_free_not_absolute (seg : string) :
  contains (Ascii.eqb "/") seg = false -> Path.isAbsolute seg = false.
Proof.
  destruct seg as [|c seg]; [reflexivity|].
  unfold contains. cbn [list_ascii_of_string existsb Path.isAbsolute].
  rewrite (Ascii.eqb_sym c). intros H. now apply orb_false_iff in H.
Qed.

Lemma split_free (sep : ascii) (s : string) :
  contains (Ascii.eqb sep) s = false -> JS.split sep s = [s].
Proof.
  unfold contains.
  induction s as [|c s IH]; cbn [list_ascii_of_string existsb JS.split];
    [reflexivity|].
  intros H. apply orb_false_iff in H. destruct H as [Hc Hs].
  rewrite Ascii.eqb_sym in Hc. now rewrite Hc, (IH Hs).
Qed.

(** Splitting what [join] made of separator-free segments gives them back. *)
Lemma split_join (sep : ascii) (segments : list string) :
  Forall (fun seg => contains (Ascii.eqb sep) seg = false) segments ->
  segments <> [] ->
  JS.split sep (JS.join (String sep "") segments) = segments.
Proof.
  intros H. unfold JS.join.
  induction H as [|seg segs Hseg Hsegs IH]; intros Hne; [contradiction|].
  cbn [String.concat]. destruct segs as [|seg' segs'].
  - now apply split_free.
  - cbn [String.append]. rewrite split_app, (split_free _ _ Hseg).
    cbn [app]. f_equal. apply IH. discriminate.
Qed.

(** ** Path resolution *)


Lemma normalize_segments_no_parent (allowAboveRoot : bool) (todo stack : list string) :
  Forall (fun seg => String.eqb seg ".." = false) todo ->
  Path.normalize_segments allowAboveRoot stack todo
  = rev stack ++ naming_segments todo.
Proof.
  intros H. revert stack. unfold naming_segments.
  induction H as [|seg todo Hseg _ IH]; intros stack;
    cbn [Path.normalize_segments filter].
  - now rewrite app_nil_r.
  - destruct (String.eqb seg "" || String.eqb seg "."); cbn [negb]; [apply IH|].
    rewrite Hseg, IH. cbn [rev]. now rewrite <- app_assoc.
Qed.

Lemma resolve_loop_absolute (here : string) (args : list string) (resolvedPath : string) :
  Path.isAbsolute here = true ->
  snd (Path.resolve_loop (args ++ [here]) resolvedPath) = true.
Proof.
  intros Hhere. revert resolvedPath.
  induction args as [|arg args IH]; intros resolvedPath;
    cbn [app Path.resolve_loop].
  - destruct here as [|c here]; [discriminate|].
    cbn [String.eqb]. now rewrite Hhere.
  - destruct (String.eqb arg ""); [apply IH|].
    destruct (Path.isAbsolute arg); [reflexivity | apply IH].
Qed.

(** In a process whose working directory is absolute, [resolve] answers an
    absolute path. *)
Lemma resolve_absolute (here : string) (args : list string) :
  Path.isAbsolute here = true ->
  Path.isAbsolute (Path.resolve here args) = true.
Proof.
  intros Hhere. unfold Path.resolve.
  pose proof (resolve_loop_absolute here (rev args) "" Hhere) as H.
  destruct (Path.resolve_loop (rev args ++ [here]) "") as [resolvedPath abs].
  cbn [snd] in H. subst abs. reflexivity.
Qed.


(** ** Path rooting *)

Lemma isNegated_marker (pattern_ : string) :
  negb (String.eqb (positivePattern pattern_) pattern_) = JS.indexOf_is_0 pattern_ "!".
Proof.
  destruct pattern_ as [|a t]; [reflexivity|].
  rewrite indexOf_is_0_head.
  destruct (Ascii.eqb_spec "!" a) as [<-|Ha].
  - rewrite positivePattern_negated.
    apply negb_true_iff, String.eqb_neq, string_cons_neq.
  - rewrite positivePattern_positive
      by (rewrite indexOf_is_0_head; now apply Ascii.eqb_neq).
    now rewrite String.eqb_refl.
Qed.

Lemma addPathToPattern_single (here sanitisedPath pattern_ : string) :
  contains (Ascii.eqb "/") (positivePattern pattern_) = false ->
  addPathToPattern here sanitisedPath pattern_ = pattern_.
Proof.
  intros H. unfold addPathToPattern. now rewrite split_length_contains, H.
Qed.

Lemma addPathToPattern_multi (here sanitisedPath pattern_ : string) :
  contains (Ascii.eqb "/") (positivePattern pattern_) = true ->
  let patternSegments := JS.split "/" (positivePattern pattern_) in
  let isFullPath := String.eqb (nth 0 patternSegments "") "" in
  addPathToPattern here sanitisedPath pattern_
  = (negation_marker pattern_
     ++ Path.resolve here
          [sanitisedPath;
           if isFullPath then "/" ++ nth 1 patternSegments "" else nth 0 patternSegments "";
           JS.join "/" (JS.slice (if isFullPath then 2 else 1) patternSegments)])%string.
Proof.
  intros H. cbn zeta. unfold addPathToPattern, negation_marker.
  now rewrite split_length_contains, H, isNegated_marker.
Qed.

Lemma concat_head (sep : string) (c : ascii) (seg : string) (segs : list string) :
  exists tail, String.concat sep (String c seg :: segs) = String c tail.
Proof.
  destruct segs; cbn [String.concat String.append]; eauto.
Qed.


(** Resolving an absolute pattern of plain segments only normalises it. *)
Lemma resolve_absolute_segments (here root q second : string) (others : list string) :
  JS.split "/" q = "" :: second :: others ->
  plain_segments (second :: others) = true ->
  Path.resolve here [root; ("/" ++ second)%string; JS.join "/" others]
  = ("/" ++ JS.join "/" (naming_segments (JS.split "/" q)))%string.
Proof.
  intros Hsplit Hplain.
  pose proof (split_separator_free "/" q) as Hfree. rewrite Hsplit in Hfree.
  assert (Forall (fun seg => String.eqb seg ".." = false)
                 (("" :: second :: others) ++ [""])) as Hnoparent.
  { apply Forall_app. split; [|now repeat constructor].
    constructor; [reflexivity|].
    unfold plain_segments in Hplain. rewrite forallb_forall in Hplain.
    apply Forall_forall. intros seg Hseg. apply Hplain in Hseg.
    apply andb_true_iff in Hseg. destruct Hseg as [_ Hseg].
    now apply negb_true_iff. }
  assert (Path.normalizeString (q ++ String "/" "") false
          = JS.join "/" (naming_segments (JS.split "/" q))) as Hnorm.
  { unfold Path.normalizeString. f_equal.
    rewrite split_app, Hsplit. cbn [JS.split].
    rewrite (normalize_segments_no_parent _ _ _ Hnoparent).
    unfold naming_segments. rewrite filter_app. cbn [filter rev app].
    cbn. now rewrite app_nil_r. }
  assert (q = "/" ++ JS.join "/" (second :: others))%string as Hq
      by (rewrite <- (join_split "/" q), Hsplit; reflexivity).
  unfold Path.resolve. cbn [rev app Path.resolve_loop].
  destruct others as [|third others].
  - cbn [JS.join String.concat String.eqb String.append Path.isAbsolute].
    cbn [JS.join String.concat String.append] in Hq.
    rewrite Ascii.eqb_refl. cbn [negb]. f_equal.
    rewrite <- Hnorm, Hq. cbn [String.append]. reflexivity.
  - assert (String.eqb (JS.join "/" (third :: others)) "" = false
            /\ Path.isAbsolute (JS.join "/" (third :: others)) = false) as [Hr1 Hr2].
    { inversion Hfree as [|? ? _ Hfree']; subst.
      inversion Hfree' as [|? ? _ Hfree'']; subst.
      inversion Hfree'' as [|? ? Hthird _]; subst.
      cbn [plain_segments forallb] in Hplain.
      apply andb_true_iff in Hplain. destruct Hplain as [_ Hplain].
      apply andb_true_iff in Hplain. destruct Hplain as [H3 _].
      apply andb_true_iff in H3. destruct H3 as [H3 _].
      destruct third as [|c third]; [discriminate|].
      destruct (concat_head "/" c third others) as [tail E].
      unfold JS.join. rewrite E. split; [reflexivity|].
      now apply separator_free_not_absolute in Hthird. }
    rewrite Hr1, Hr2.
    cbn [String.eqb String.append Path.isAbsolute].
    rewrite Ascii.eqb_refl. cbn [negb]. f_equal.
    rewrite <- Hnorm, Hq. f_equal.
    unfold JS.join. cbn [String.concat String.append].
    now rewrite !append_assoc.
Qed.









(** ** The scenarios of the package's tests

    The model run on the inputs of the package's unit and end-to-end tests,
    with the tree of the latter mounted at [/fixture]. *)

Lemma fixture_scannable : scannable fixture 4 "/fixture".
Proof.
  cbn. repeat constructor.
Qed.

Example classifier_mixed :
  positivePatterns ["!negative"; "positive"] = ["positive"]
  /\ negativePatterns ["!negative"; "positive"] = ["negative"].
Proof. split; reflexivity. Qed.

Example validity_of_test_patterns :
  map (fun p => JS.nonempty (validatePattern p None))
      ["./src/**/*.js"; "!./src/**/*.js"; "./full/path/to/file.js";
       "./relative/path/to/file.js"; "./src/../filename.js"]
  = [false; false; false; false; false]
  /\ map (fun p => JS.nonempty (validatePattern p None))
         ["./**"; "./**/*.js"; "**"; "**/*.js"; "!**/*.js"; "!./**/*.js";
          "../filename.js"; "./(this|that)/**/*.js"]
     = [true; true; true; true; true; true; true; true].
Proof. split; reflexivity. Qed.

Example sanitisePath_tests :
  map sanitisePath
      ["c:\path\to\filename.js"; "c:/path/to/filename.js"; "c:\"; "/path/to/filename.js"]
  = ["/path/to/filename.js"; "/path/to/filename.js"; "/"; "/path/to/filename.js"].
Proof. reflexivity. Qed.

Example addPathToPatterns_tests :
  addPathToPatterns "/" "/root"
    ["./path/to/filename.js"; "./README.md"; "!./.gitignore";
     "path/to/filename.js"; "!path/to/lib/filename.js";
     "/otherRoot/path/to/filename.js"; "!/otherRoot/exclude.js";
     "README.md"; "!.gitignore"]
  = ["/root/path/to/filename.js"; "/root/README.md"; "!/root/.gitignore";
     "/root/path/to/filename.js"; "!/root/path/to/lib/filename.js";
     "/otherRoot/path/to/filename.js"; "!/otherRoot/exclude.js";
     "README.md"; "!.gitignore"].
Proof. reflexivity. Qed.

Example dirMightMatch_tests :
  map (fun d => dirMightMatch d "/root/path/*.js") ["/root/path"; "/root/other/path"]
  = [true; false]
  /\ map (fun d => dirMightMatch d "/root/src/**/*.js")
         ["/root/src"; "/root/src/js"; "/root/tests"; "/root/node_modules/module/src"]
     = [true; true; false; false].
Proof. split; reflexivity. Qed.

Example matchesSinglePattern_tests :
  map (fun p => matchesSinglePattern p "./src/**/lib/*.js" None false)
      ["./src/lib/filename.js"; "./src/deep/lib/filename.js";
       "./src/filename.js"; "./lib/src/filename.js"; "./src/deep/filename.js"]
  = [true; true; false; false; false].
Proof. reflexivity. Qed.

Example scenario_directory_wildcard :
  snd (findFiles 4 "/fixture" ["./src/**/*.js"] [] (Some noOptions) None fixture)
  = Returned ["/fixture/src/deep/deep-file.js";
              "/fixture/src/deep/deeper/deeper-file.js";
              "/fixture/src/src-file.js"].
Proof. reflexivity. Qed.

Example scenario_excludes :
  snd (findFiles 4 "/fixture" ["./src/**/*.js"] ["./src/**/deeper/*.js"]
                 (Some noOptions) None fixture)
  = Returned ["/fixture/src/deep/deep-file.js"; "/fixture/src/src-file.js"].
Proof. reflexivity. Qed.

Example scenario_negated_include :
  snd (findFiles 4 "/fixture" ["./src/**/*.js"; "!./src/**/deeper/*.js"] []
                 (Some noOptions) None fixture)
  = Returned ["/fixture/src/deep/deep-file.js"; "/fixture/src/src-file.js"].
Proof. reflexivity. Qed.

Example scenario_negated_exclude :
  snd (findFiles 4 "/fixture" ["./src/**/*.js"]
                 ["./src/deep/**/*.js"; "!./src/**/deeper/*.js"]
                 (Some noOptions) None fixture)
  = Returned ["/fixture/src/deep/deeper/deeper-file.js"; "/fixture/src/src-file.js"].
Proof. reflexivity. Qed.

Example scenario_multiple_includes :
  snd (findFiles 4 "/fixture" ["./src/*.js"; "./src/**/deeper/*.js"] []
                 (Some noOptions) None fixture)
  = Returned ["/fixture/src/deep/deeper/deeper-file.js"; "/fixture/src/src-file.js"].
Proof. reflexivity. Qed.

Example scenario_matchBase :
  snd (findFiles 4 "/fixture" ["deep-file.js"] ["./node_modules/**/*.js"]
                 (Some {| dot := false; matchBase := true |}) None fixture)
  = Returned ["/fixture/src/deep/deep-file.js"; "/fixture/tests/deep/deep-file.js"].
Proof. reflexivity. Qed.

Example scenario_dot :
  snd (findFiles 4 "/fixture" ["./*.js"] [] (Some {| dot := true; matchBase := false |})
                 None fixture)
  = Returned ["/fixture/.dot-file.js"; "/fixture/root-file.js"]
  /\ snd (findFiles 4 "/fixture" ["./*.js"] [] None None fixture)
     = Returned ["/fixture/root-file.js"].
Proof. split; reflexivity. Qed.

Example scenario_no_rules :
  snd (findFiles 4 "/fixture" ["./**/deep-file.js"] [] None (Some []) fixture)
  = Returned ["/fixture/node_modules/deep/deep-file.js";
              "/fixture/src/deep/deep-file.js";
              "/fixture/tests/deep/deep-file.js"].
Proof. reflexivity. Qed.

Example scenario_invalid_include :
  snd (findFiles 4 "/fixture" ["./**"] [] (Some noOptions) None fixture)
  = Threw (FluidFailure
             "One or more glob patterns you have entered are invalid.  Cannot continue.").
Proof. reflexivity. Qed.

(** * Further properties of the package *)

(** ** Pattern classifier *)

Lemma negativePatterns_restore (patterns : list string) :
  map (String "!") (negativePatterns patterns) = filter negated patterns.
Proof.
  unfold negativePatterns, negated.
  induction patterns as [|p l IH]; cbn [filter map]; [reflexivity|].
  destruct (JS.indexOf_is_0 p "!") eqn:E; [|exact IH].
  apply indexOf_is_0_char in E. destruct E as [t ->].
  cbn [map]. now rewrite substring1_cons, IH.
Qed.

Lemma positive_negative_permutation (patterns : list string) :
  Permutation patterns (positivePatterns patterns ++ filter negated patterns).
Proof.
  unfold positivePatterns, negated.
  induction patterns as [|p l IH]; cbn [filter]; [constructor|].
  destruct (JS.indexOf_is_0 p "!"); cbn [negb app].
  - now apply Permutation_cons_app.
  - now constructor.
Qed.

(** X1: the two classifiers split a pattern list by polarity.  Putting the
    marker back on the negative patterns gives the negated patterns of the
    list, in their order; with the positive patterns they make up the list,
    nothing lost or repeated; no positive pattern carries the marker. *)
Theorem classifier_partition (patterns : list string) :
  map (String "!") (negativePatterns patterns) = filter negated patterns
  /\ Permutation patterns
       (positivePatterns patterns ++ map (String "!") (negativePatterns patterns))
  /\ List.length (positivePatterns patterns) + List.length (negativePatterns patterns)
     = List.length patterns
  /\ Forall (fun pattern_ => negated pattern_ = false) (positivePatterns patterns).
Proof.
  repeat split.
  - apply negativePatterns_restore.
  - rewrite negativePatterns_restore. apply positive_negative_permutation.
  - pose proof (Permutation_length (positive_negative_permutation patterns)) as H.
    rewrite length_app, <- negativePatterns_restore, length_map in H. lia.
  - apply Forall_forall. intros p Hp. unfold positivePatterns in Hp.
    apply filter_In in Hp. destruct Hp as [_ Hp]. now apply negb_true_iff.
Qed.

(** ** Pattern validator *)

Lemma validatePattern_fold (q : string) (rules : list (string * Rule))
      (failures : list Violation) :
  fold_left
    (fun failures (entry : string * Rule) =>
       if pattern (snd entry) q
       then failures ++ [ {| glob := q; error := message (snd entry) |} ]
       else failures)
    rules failures
  = failures
    ++ map (fun rule => {| glob := q; error := message rule |})
           (filter (fun rule => pattern rule q) (map snd rules)).
Proof.
  revert failures.
  induction rules as [|r rules IH]; intros failures; cbn [fold_left map filter].
  - now rewrite app_nil_r.
  - rewrite IH. destruct (pattern (snd r) q); [|reflexivity].
    cbn [map]. now rewrite <- app_assoc.
Qed.

(** X2: [validatePattern] answers one record for each rule of the active
    rule set whose test the positive form of the pattern satisfies, in the
    order of the rule set, naming that positive form and the rule's
    message; so never more records than rules. *)
Theorem validatePattern_records (pattern_ : string) (rules : option Rules) :
  validatePattern pattern_ rules
  = map (fun rule => {| glob := positivePattern pattern_; error := message rule |})
        (filter (fun rule => pattern rule (positivePattern pattern_))
                (active_rules rules))
  /\ List.length (validatePattern pattern_ rules) <= List.length (active_rules rules).
Proof.
  assert (validatePattern pattern_ rules
          = map (fun rule => {| glob := positivePattern pattern_; error := message rule |})
                (filter (fun rule => pattern rule (positivePattern pattern_))
                        (active_rules rules))) as E.
  { unfold validatePattern, active_rules. cbn zeta.
    now rewrite validatePattern_fold. }
  split; [exact E|].
  rewrite E, length_map. apply filter_length_le.
Qed.

(** X3: negation is irrelevant to validity.  A pattern and the same pattern
    with the negation marker in front get the same violation records. *)
Theorem validatePattern_ignores_negation (pattern_ : string) (rules : option Rules) :
  negated pattern_ = false ->
  validatePattern (String "!" pattern_) rules = validatePattern pattern_ rules.
Proof.
  intros H. unfold validatePattern.
  now rewrite positivePattern_negated, (positivePattern_positive _ H).
Qed.

Lemma validatePattern_ignores_negation_witness :
  negated "./**/*.js" = false
  /\ validatePattern "!./**/*.js" None = validatePattern "./**/*.js" None.
Proof.
  split; [reflexivity|].
  apply (validatePattern_ignores_negation "./**/*.js" None). reflexivity.
Defined.

(** X4: under the default rules a pattern is valid exactly when none of the
    five reasons applies to its positive form. *)
Theorem validatePattern_default_valid_iff (pattern_ : string) :
  validatePattern pattern_ None = []
  <-> invalid_by_default (positivePattern pattern_) = false.
Proof.
  rewrite validatePattern_default. unfold expected_violations, invalid_by_default.
  destruct (has_leading_wildcard _), (has_windows_separator _),
    (has_leading_parent_dir _), (has_regexp_character _), (is_whole_root _);
    cbn; split; intros H; try reflexivity; discriminate.
Qed.

(** X5: [validatePatternArray] collects the records of each pattern in
    order: the records of a concatenation are the concatenation of the
    records, and an array is valid exactly when each of its patterns is. *)
Theorem validatePatternArray_collects (patterns patterns' : list string)
        (rules : option Rules) :
  validatePatternArray (patterns ++ patterns') rules
  = validatePatternArray patterns rules ++ validatePatternArray patterns' rules
  /\ (validatePatternArray patterns rules = []
      <-> Forall (fun pattern_ => validatePattern pattern_ rules = []) patterns).
Proof.
  rewrite !validatePatternArray_flat_map. split; [apply flat_map_app|].
  induction patterns as [|p l IH]; cbn [flat_map].
  - split; constructor.
  - split.
    + intros H. apply app_eq_nil in H. destruct H as [Hp Hl].
      constructor; [exact Hp | now apply IH].
    + intros H. inversion H as [|? ? Hp Hl]; subst.
      rewrite Hp. now apply IH.
Qed.

(** ** Path-set filter: failure, result and the four kinds of pattern *)

Lemma fs_statSync_none (host : Host) (path : string) :
  statSync host path = None ->
  fs_statSync path host = ([Stat path], Threw (FsFailure path)).
Proof.
  intros E. unfold fs_statSync. now rewrite E.
Qed.

Section FilterFurther.

Context {M : Minimatch}.

(** X6: [filterPaths] does not catch what [fs.statSync] raises.  It fails at
    the first entry that cannot be stat'ed, with that entry's error, having
    stat'ed the entries before it and none after it; no list is returned. *)
Theorem filterPaths_fails_at_first_unreadable
        (host : Host) (before after includes excludes : list string)
        (singlePath : string) (minimatchOptions : option MinimatchOptions) :
  Forall (fun p => statSync host p <> None) before ->
  statSync host singlePath = None ->
  filterPaths (before ++ singlePath :: after) includes excludes minimatchOptions host
  = (map Stat before ++ [Stat singlePath], Threw (FsFailure singlePath)).
Proof.
  intros Hbefore Hnone. unfold filterPaths.
  generalize (@nil string) at 1 as acc.
  induction Hbefore as [|x before Hx _ IH]; intros acc; cbn [app each map].
  - apply bind_threw. unfold filterEntry. apply bind_threw.
    now apply fs_statSync_none.
  - destruct (statSync host x) as [stats|] eqn:Ex; [|congruence].
    rewrite (bind_returned _ _ _ _ _ (filterEntry_returns _ _ _ _ _ _ _ Ex)).
    now rewrite IH.
Qed.

(** X7: whenever [filterPaths] returns, it has stat'ed each entry once, in
    the order given, and its result is the entries the inclusion decision
    accepts, in that same order: nothing is added, moved or repeated. *)
Theorem filterPaths_returned
        (host : Host) (dirPaths includes excludes : list string)
        (minimatchOptions : option MinimatchOptions)
        (events : list Event) (allowed : list string) :
  filterPaths dirPaths includes excludes minimatchOptions host
  = (events, Returned allowed) ->
  events = map Stat dirPaths
  /\ allowed
     = filter (fun singlePath =>
                 match statSync host singlePath with
                 | Some stats => accepts includes excludes minimatchOptions singlePath stats
                 | None => false
                 end)
              dirPaths
  /\ (forall singlePath, In singlePath allowed -> In singlePath dirPaths)
  /\ (NoDup dirPaths -> NoDup allowed).
Proof.
  intros H. pose proof (filterPaths_inv _ _ _ _ _ _ _ H) as Hstat.
  rewrite (filterPaths_returns _ _ _ _ _ Hstat) in H.
  injection H as <- <-. unfold kept. repeat split.
  - intros p Hp. now apply filter_In in Hp.
  - apply NoDup_filter.
Qed.

Lemma find_match_app (patterns patterns' : list string) (singlePath : string)
      (minimatchOptions : option MinimatchOptions) (isDir : bool) :
  find_match (patterns ++ patterns') singlePath minimatchOptions isDir
  = find_match patterns singlePath minimatchOptions isDir
    || find_match patterns' singlePath minimatchOptions isDir.
Proof.
  unfold find_match. apply existsb_app.
Qed.

Lemma find_match_incl (patterns patterns' : list string) (singlePath : string)
      (minimatchOptions : option MinimatchOptions) (isDir : bool) :
  incl patterns patterns' ->
  find_match patterns singlePath minimatchOptions isDir = true ->
  find_match patterns' singlePath minimatchOptions isDir = true.
Proof.
  unfold find_match. intros Hincl H.
  apply existsb_exists in H. destruct H as (q & Hq & Hm).
  apply existsb_exists. exists q. auto.
Qed.

(** The filter depends on the negated includes and the positive excludes
    only through what their union matches. *)
Lemma filterEntry_same_soft_excludes
      (positiveIncludes negativeIncludes positiveExcludes negativeExcludes
       negativeIncludes' positiveExcludes' : list string)
      (minimatchOptions : option MinimatchOptions)
      (matchingPaths : list string) (singlePath : string) (host : Host) :
  find_match (negativeIncludes ++ positiveExcludes) singlePath minimatchOptions false
  = find_match (negativeIncludes' ++ positiveExcludes') singlePath minimatchOptions false ->
  filterEntry positiveIncludes negativeIncludes positiveExcludes negativeExcludes
              minimatchOptions matchingPaths singlePath host
  = filterEntry positiveIncludes negativeIncludes' positiveExcludes' negativeExcludes
                minimatchOptions matchingPaths singlePath host.
Proof.
  intros H. unfold filterEntry. apply bind_same; [reflexivity|].
  intros stats. cbn zeta. now rewrite H.
Qed.

(** Two pattern sets the filter treats alike are scanned alike. *)
Lemma scanSingleDir_same_filter
      (includes excludes includes' excludes' : list string)
      (minimatchOptions : option MinimatchOptions) (host : Host) :
  (forall dirPaths,
      filterPaths dirPaths includes excludes minimatchOptions host
      = filterPaths dirPaths includes' excludes' minimatchOptions host) ->
  forall fuel dirPath,
    scanSingleDir fuel dirPath includes excludes minimatchOptions host
    = scanSingleDir fuel dirPath includes' excludes' minimatchOptions host.
Proof.
  intros Hfilter fuel.
  induction fuel as [|fuel IH]; intros dirPath; [reflexivity|].
  cbn [scanSingleDir].
  apply bind_same; [reflexivity|]. intros names.
  apply bind_same; [reflexivity|]. intros here.
  apply bind_same; [apply Hfilter|]. intros allowed.
  apply each_same. intros acc x. unfold scanEntry.
  apply bind_same; [reflexivity|]. intros stats.
  destruct (isDirectory stats); [|reflexivity].
  apply bind_same; [apply IH | reflexivity].
Qed.

Lemma classify_negated_include (before after : list string) (pattern_ : string) :
  positivePatterns (before ++ String "!" pattern_ :: after)
  = positivePatterns (before ++ after)
  /\ negativePatterns (before ++ String "!" pattern_ :: after)
     = negativePatterns before ++ pattern_ :: negativePatterns after.
Proof.
  unfold positivePatterns, negativePatterns.
  rewrite !filter_app. cbn [filter]. rewrite indexOf_is_0_head.
  rewrite Ascii.eqb_refl. cbn [negb]. split; [reflexivity|].
  rewrite map_app. cbn [map]. now rewrite substring1_cons.
Qed.

Lemma classify_positive_cons (patterns : list string) (pattern_ : string) :
  negated pattern_ = false ->
  positivePatterns (pattern_ :: patterns) = pattern_ :: positivePatterns patterns
  /\ negativePatterns (pattern_ :: patterns) = negativePatterns patterns.
Proof.
  unfold negated, positivePatterns, negativePatterns. intros H.
  cbn [filter]. now rewrite H.
Qed.

Lemma negativePatterns_app (patterns patterns' : list string) :
  negativePatterns (patterns ++ patterns')
  = negativePatterns patterns ++ negativePatterns patterns'.
Proof.
  unfold negativePatterns. now rewrite filter_app, map_app.
Qed.

(** X8: a negated include is the same as an exclude.  Taking the negated
    include [!p] out of the includes and adding [p] to the excludes, where
    [p] is a positive pattern, changes neither what [filterPaths] does nor
    what [scanSingleDir] does. *)
Theorem negated_include_is_exclude
        (host : Host) (before after excludes : list string) (pattern_ : string)
        (minimatchOptions : option MinimatchOptions) :
  negated pattern_ = false ->
  (forall dirPaths,
      filterPaths dirPaths (before ++ String "!" pattern_ :: after) excludes
                  minimatchOptions host
      = filterPaths dirPaths (before ++ after) (pattern_ :: excludes)
                    minimatchOptions host)
  /\ (forall fuel dirPath,
         scanSingleDir fuel dirPath (before ++ String "!" pattern_ :: after) excludes
                       minimatchOptions host
         = scanSingleDir fuel dirPath (before ++ after) (pattern_ :: excludes)
                         minimatchOptions host).
Proof.
  intros Hpos.
  assert (forall dirPaths,
             filterPaths dirPaths (before ++ String "!" pattern_ :: after) excludes
                         minimatchOptions host
             = filterPaths dirPaths (before ++ after) (pattern_ :: excludes)
                           minimatchOptions host) as Hfilter.
  { intros dirPaths. unfold filterPaths.
    destruct (classify_negated_include before after pattern_) as [-> ->].
    destruct (classify_positive_cons excludes pattern_ Hpos) as [-> ->].
    rewrite negativePatterns_app.
    apply each_same. intros acc x.
    apply filterEntry_same_soft_excludes.
    change (pattern_ :: negativePatterns after)
      with ([pattern_] ++ negativePatterns after).
    change (pattern_ :: positivePatterns excludes)
      with ([pattern_] ++ positivePatterns excludes).
    rewrite !find_match_app.
    destruct (find_match (negativePatterns before) _ _ _),
      (find_match [pattern_] _ _ _), (find_match (negativePatterns after) _ _ _),
      (find_match (positivePatterns excludes) _ _ _); reflexivity. }
  split; [exact Hfilter|].
  now apply scanSingleDir_same_filter.
Qed.

Lemma accepts_monotone (includes excludes includes' excludes' : list string)
      (minimatchOptions : option MinimatchOptions)
      (singlePath : string) (stats : Kind) :
  incl (positivePatterns includes) (positivePatterns includes') ->
  incl (negativePatterns excludes) (negativePatterns excludes') ->
  incl (negativePatterns includes' ++ positivePatterns excludes')
       (negativePatterns includes ++ positivePatterns excludes) ->
  accepts includes excludes minimatchOptions singlePath stats = true ->
  accepts includes' excludes' minimatchOptions singlePath stats = true.
Proof.
  intros Hinc Hneg Hsoft. unfold accepts. cbn zeta. intros H.
  apply andb_true_iff in H. destruct H as [H1 H2].
  apply andb_true_iff. split; [now apply (find_match_incl _ _ _ _ _ Hinc)|].
  apply orb_true_iff in H2. apply orb_true_iff.
  destruct H2 as [H2|H2]; [left; now apply (find_match_incl _ _ _ _ _ Hneg)|].
  right. apply negb_true_iff in H2. apply negb_true_iff.
  destruct (find_match (negativePatterns includes' ++ positivePatterns excludes')
                       singlePath minimatchOptions false) eqn:E; [|reflexivity].
  apply (find_match_incl _ _ _ _ _ Hsoft) in E. congruence.
Qed.

(** X9: what each kind of pattern can do.  With more positive includes or
    more negated excludes, and no more negated includes or positive
    excludes, [filterPaths] keeps every entry it kept before: positive
    includes and negated excludes only ever admit entries, negated includes
    and positive excludes only ever reject them. *)
Theorem filterPaths_monotone
        (host : Host) (dirPaths includes excludes includes' excludes' : list string)
        (minimatchOptions : option MinimatchOptions)
        (events : list Event) (allowed : list string) :
  incl (positivePatterns includes) (positivePatterns includes') ->
  incl (negativePatterns excludes) (negativePatterns excludes') ->
  incl (negativePatterns includes' ++ positivePatterns excludes')
       (negativePatterns includes ++ positivePatterns excludes) ->
  filterPaths dirPaths includes excludes minimatchOptions host
  = (events, Returned allowed) ->
  exists allowed',
    filterPaths dirPaths includes' excludes' minimatchOptions host
    = (events, Returned allowed')
    /\ incl allowed allowed'.
Proof.
  intros Hinc Hneg Hsoft H.
  pose proof (filterPaths_inv _ _ _ _ _ _ _ H) as Hstat.
  rewrite (filterPaths_returns _ _ _ _ _ Hstat) in H. injection H as <- <-.
  eexists. split; [apply filterPaths_returns; exact Hstat|].
  intros p Hp. apply kept_In in Hp. destruct Hp as (Hin & stats & Hs & Hacc).
  apply kept_In. split; [exact Hin|]. exists stats. split; [exact Hs|].
  now apply (accepts_monotone includes excludes).
Qed.

End FilterFurther.

Lemma filterPaths_fails_at_first_unreadable_witness :
  filterPaths ["/fixture/src"; "/fixture/missing"; "/fixture/tests"]
              ["/fixture/src/**/*.js"] [] None fixture
  = ([Stat "/fixture/src"; Stat "/fixture/missing"],
     Threw (FsFailure "/fixture/missing")).
Proof.
  apply (filterPaths_fails_at_first_unreadable
           fixture ["/fixture/src"] ["/fixture/tests"]).
  - repeat constructor. discriminate.
  - reflexivity.
Defined.

Lemma filterPaths_returned_witness :
  [Stat "/fixture/src"; Stat "/fixture/tests"]
  = map Stat ["/fixture/src"; "/fixture/tests"]
  /\ NoDup ["/fixture/src"].
Proof.
  destruct (filterPaths_returned
              fixture ["/fixture/src"; "/fixture/tests"] ["/fixture/src/**/*.js"] [] None
              [Stat "/fixture/src"; Stat "/fixture/tests"] ["/fixture/src"] eq_refl)
    as (E & _ & _ & N).
  split; [exact E|]. apply N.
  repeat constructor; cbn; intuition discriminate.
Defined.

Lemma negated_include_is_exclude_witness :
  scanSingleDir 4 "/fixture"
                ["/fixture/src/**/*.js"; "!/fixture/src/**/deeper/*.js"] [] None fixture
  = scanSingleDir 4 "/fixture"
                  ["/fixture/src/**/*.js"] ["/fixture/src/**/deeper/*.js"] None fixture.
Proof.
  destruct (negated_include_is_exclude
              fixture ["/fixture/src/**/*.js"] [] [] "/fixture/src/**/deeper/*.js" None
              eq_refl) as [_ H].
  apply (H 4 "/fixture").
Defined.

Lemma filterPaths_monotone_witness :
  exists allowed',
    filterPaths ["/fixture/src/deep/deep-file.js"; "/fixture/src/deep/deeper"]
                ["/fixture/src/**/*.js"] [] None fixture
    = ([Stat "/fixture/src/deep/deep-file.js"; Stat "/fixture/src/deep/deeper"],
       Returned allowed')
    /\ incl ["/fixture/src/deep/deeper"] allowed'.
Proof.
  apply (filterPaths_monotone
           fixture ["/fixture/src/deep/deep-file.js"; "/fixture/src/deep/deeper"]
           ["/fixture/src/**/*.js"] ["/fixture/src/deep/*.js"]
           ["/fixture/src/**/*.js"] [] None).
  - apply incl_refl.
  - apply incl_refl.
  - intros p [].
  - reflexivity.
Defined.

(** ** Directory pre-check: what the loop computes *)

(** The index loop started after [donePattern] and [doneDir], of equal
    length, is the recursion on the segments that are left. *)
Lemma dirMightMatch_loop_segments (pathSegments : list string) :
  forall (patternSegments donePattern doneDir : list string),
    List.length donePattern = List.length doneDir ->
    dirMightMatch_loop (donePattern ++ patternSegments) (doneDir ++ pathSegments)
                       (List.length doneDir) (List.length pathSegments)
    = might_match_segments patternSegments pathSegments.
Proof.
  induction pathSegments as [|d pathSegments IH];
    intros patternSegments donePattern doneDir Hlen;
    cbn [List.length dirMightMatch_loop might_match_segments]; [reflexivity|].
  assert (nth_error (donePattern ++ patternSegments) (List.length doneDir)
          = nth_error patternSegments 0) as ->
      by (rewrite <- Hlen; apply nth_error_after).
  rewrite nth_error_after. cbn [nth_error].
  destruct patternSegments as [|p patternSegments]; cbn [nth_error strict_eq];
    [reflexivity|].
  destruct (String.eqb p "**"); [reflexivity|].
  destruct (String.eqb d p) eqn:Edp; cbn [negb]; [|reflexivity].
  apply String.eqb_eq in Edp. subst d.
  replace (donePattern ++ p :: patternSegments)
    with ((donePattern ++ [p]) ++ patternSegments) by now rewrite <- app_assoc.
  replace (doneDir ++ p :: pathSegments)
    with ((doneDir ++ [p]) ++ pathSegments) by now rewrite <- app_assoc.
  replace (S (List.length doneDir)) with (List.length (doneDir ++ [p]))
    by (rewrite length_app; cbn; lia).
  apply IH. rewrite !length_app. cbn. lia.
Qed.

Lemma dirMightMatch_segments (pathToDir pattern_ : string) :
  JS.indexOf_found pattern_ "/" = true ->
  dirMightMatch pathToDir pattern_
  = might_match_segments (JS.split "/" pattern_) (JS.split "/" pathToDir).
Proof.
  intros H. unfold dirMightMatch. rewrite H.
  apply (dirMightMatch_loop_segments _ _ [] []). reflexivity.
Qed.

Lemma might_match_segments_prefix (patternSegments pathSegments below : list string) :
  might_match_segments patternSegments (pathSegments ++ below) = true ->
  might_match_segments patternSegments pathSegments = true.
Proof.
  revert patternSegments.
  induction pathSegments as [|d pathSegments IH]; intros patternSegments H;
    cbn [app might_match_segments] in *; [reflexivity|].
  destruct patternSegments as [|p patternSegments]; [discriminate|].
  destruct (String.eqb p "**"); [reflexivity|].
  destruct (String.eqb d p); [now apply IH | discriminate].
Qed.

Lemma might_match_segments_iff (patternSegments pathSegments : list string) :
  might_match_segments patternSegments pathSegments = true
  <-> exists k,
      k <= List.length pathSegments
      /\ firstn k patternSegments = firstn k pathSegments
      /\ (k = List.length pathSegments \/ nth_error patternSegments k = Some "**").
Proof.
  revert patternSegments.
  induction pathSegments as [|d pathSegments IH]; intros patternSegments;
    cbn [might_match_segments List.length].
  - split; [|reflexivity]. intros _. exists 0. cbn. auto.
  - destruct patternSegments as [|p patternSegments].
    + split; [discriminate|].
      intros (k & Hk & Hfirst & Hend).
      destruct k as [|k]; [|destruct k; discriminate].
      destruct Hend as [Hend|Hend]; discriminate.
    + destruct (String.eqb_spec p "**") as [->|Hp].
      * split; [|reflexivity]. intros _. exists 0. cbn. split; [lia|]. auto.
      * destruct (String.eqb_spec d p) as [->|Hdp].
        -- rewrite IH. split.
           ++ intros (k & Hk & Hfirst & Hend). exists (S k). cbn [firstn nth_error].
              split; [lia|]. split; [now rewrite Hfirst|].
              destruct Hend as [->|Hend]; auto.
           ++ intros (k & Hk & Hfirst & Hend).
              destruct k as [|k].
              ** destruct Hend as [Hend|Hend]; [discriminate|].
                 cbn in Hend. congruence.
              ** exists k. cbn [firstn nth_error] in *.
                 split; [lia|]. split; [congruence|].
                 destruct Hend as [Hend|Hend]; [left; lia | now right].
        -- split; [discriminate|].
           intros (k & Hk & Hfirst & Hend).
           destruct k as [|k].
           ++ destruct Hend as [Hend|Hend]; [discriminate|].
              cbn in Hend. congruence.
           ++ cbn [firstn] in Hfirst. congruence.
Qed.

(** X10: the pre-check is closed under ancestors.  When a directory might
    match a pattern, so does every directory whose segments are the first
    segments of its path: a scan that prunes by the pre-check never cuts the
    way to a directory the pre-check would admit. *)
Theorem dirMightMatch_ancestors (pathToDir ancestor pattern_ : string)
        (below : list string) :
  JS.split "/" pathToDir = JS.split "/" ancestor ++ below ->
  dirMightMatch pathToDir pattern_ = true ->
  dirMightMatch ancestor pattern_ = true.
Proof.
  intros Hsplit H.
  destruct (JS.indexOf_found pattern_ "/") eqn:Hslash.
  - rewrite dirMightMatch_segments in * by exact Hslash.
    rewrite Hsplit in H. now apply might_match_segments_prefix in H.
  - unfold dirMightMatch. now rewrite Hslash.
Qed.

Lemma dirMightMatch_ancestors_witness :
  dirMightMatch "/root/src/js" "/root/src/**/*.js" = true
  /\ dirMightMatch "/root/src" "/root/src/**/*.js" = true.
Proof.
  split; [reflexivity|].
  apply (dirMightMatch_ancestors "/root/src/js" "/root/src" "/root/src/**/*.js" ["js"]);
    reflexivity.
Defined.

(** X11: for a pattern with a separator, the pre-check answers [true]
    exactly when, for some [k], the first [k] segments of the pattern are the
    first [k] segments of the directory and either that is the whole of the
    directory's path or the pattern's next segment is [**].  Segments are
    compared as text: a [*] in a pattern segment matches nothing but
    itself. *)
Theorem dirMightMatch_iff (pathToDir pattern_ : string) :
  JS.indexOf_found pattern_ "/" = true ->
  (dirMightMatch pathToDir pattern_ = true
   <-> exists k,
       k <= List.length (JS.split "/" pathToDir)
       /\ firstn k (JS.split "/" pattern_) = firstn k (JS.split "/" pathToDir)
       /\ (k = List.length (JS.split "/" pathToDir)
           \/ nth_error (JS.split "/" pattern_) k = Some "**")).
Proof.
  intros H. rewrite (dirMightMatch_segments _ _ H).
  apply might_match_segments_iff.
Qed.

Lemma dirMightMatch_iff_witness :
  JS.indexOf_found "/root/src/**/*.js" "/" = true
  /\ dirMightMatch "/root/src/js/deep" "/root/src/**/*.js" = true.
Proof.
  split; [reflexivity|].
  apply (dirMightMatch_iff "/root/src/js/deep" "/root/src/**/*.js"); [reflexivity|].
  exists 3. repeat split; [cbn; lia | now right].
Defined.

(** ** Recursive scanner: what is found, what is visited, how it fails *)

Lemma each_invariant_In {A B : Type} (I : B -> Prop) (host : Host)
      (fn : B -> A -> Eff B) (l : list A) (acc : B) (events : list Event) (b : B) :
  (forall acc' x events' b',
      In x l -> I acc' -> fn acc' x host = (events', Returned b') -> I b') ->
  I acc ->
  each l fn acc host = (events, Returned b) ->
  I b.
Proof.
  revert acc events.
  induction l as [|x l IH]; intros acc events Hfn Hacc H; cbn [each] in H.
  - unfold ret in H. now injection H as _ <-.
  - apply bind_inv in H. destruct H as (ev1 & acc' & ev2 & H1 & H2 & _).
    eapply IH; [| |exact H2].
    + intros acc'' y ev b' Hy. apply Hfn. now right.
    + eapply Hfn; [now left | exact Hacc | exact H1].
Qed.

(** A computation that threw either threw in its first part or returned
    from it and threw in what follows. *)
Lemma bind_threw_inv {A B : Type} (m : Eff A) (k : A -> Eff B) (host : Host)
      (events : list Event) (e : Exception) :
  bind m k host = (events, Threw e) ->
  m host = (events, Threw e)
  \/ exists events1 a events2,
      m host = (events1, Returned a) /\ k a host = (events2, Threw e)
      /\ events = events1 ++ events2.
Proof.
  unfold bind. destruct (m host) as [events1 [a|e'|]].
  - destruct (k a host) as [events2 outcome] eqn:Ek.
    intros [= <- ->]. right. now exists events1, a, events2.
  - intros [= <- <-]. now left.
  - discriminate.
Qed.

Lemma each_threw_inv {A B : Type} (host : Host) (fn : B -> A -> Eff B)
      (l : list A) (acc : B) (events : list Event) (e : Exception) :
  each l fn acc host = (events, Threw e) ->
  exists acc' x events', In x l /\ fn acc' x host = (events', Threw e).
Proof.
  revert acc events.
  induction l as [|x l IH]; intros acc events H; cbn [each] in H;
    [discriminate|].
  apply bind_threw_inv in H. destruct H as [H|(ev1 & acc' & ev2 & _ & H & _)].
  - exists acc, x, events. split; [now left | exact H].
  - destruct (IH _ _ H) as (acc'' & y & ev' & Hy & Hfn).
    exists acc'', y, ev'. split; [now right | exact Hfn].
Qed.

(** The loop that threw did so in its callback, after what the entries
    before had done. *)
Lemma each_threw_at {A B : Type} (host : Host) (fn : B -> A -> Eff B)
      (l : list A) (acc : B) (events : list Event) (e : Exception) :
  each l fn acc host = (events, Threw e) ->
  exists acc' x before events',
    In x l /\ fn acc' x host = (events', Threw e) /\ events = before ++ events'.
Proof.
  revert acc events.
  induction l as [|x l IH]; intros acc events H; cbn [each] in H;
    [discriminate|].
  apply bind_threw_inv in H. destruct H as [H|(ev1 & acc' & ev2 & _ & H & ->)].
  - exists acc, x, [], events. split; [now left|]. now split.
  - destruct (IH _ _ H) as (acc'' & y & before & ev' & Hy & Hfn & ->).
    exists acc'', y, (ev1 ++ before), ev'. split; [now right|].
    split; [exact Hfn | now rewrite app_assoc].
Qed.

(** A property of all events of the first part, and of all events of what
    follows whenever the first part returns, is a property of all events. *)
Lemma bind_events {A B : Type} (Q : Event -> Prop) (m : Eff A) (k : A -> Eff B)
      (host : Host) :
  Forall Q (fst (m host)) ->
  (forall events a, m host = (events, Returned a) -> Forall Q (fst (k a host))) ->
  Forall Q (fst (bind m k host)).
Proof.
  intros Hm Hk. unfold bind.
  destruct (m host) as [events [a|e|]] eqn:E; cbn [fst] in *; try exact Hm.
  specialize (Hk events a eq_refl).
  destruct (k a host) as [events' outcome]. cbn [fst] in *.
  apply Forall_app. now split.
Qed.

Lemma each_events {A B : Type} (Q : Event -> Prop) (host : Host)
      (fn : B -> A -> Eff B) (l : list A) (acc : B) :
  (forall acc' x, In x l -> Forall Q (fst (fn acc' x host))) ->
  Forall Q (fst (each l fn acc host)).
Proof.
  revert acc.
  induction l as [|x l IH]; intros acc Hfn; cbn [each]; [constructor|].
  apply bind_events; [apply Hfn; now left|].
  intros events acc' _. apply IH. intros acc'' y Hy. apply Hfn. now right.
Qed.

Section ScannerFurther.

Context {M : Minimatch}.

Lemma accepts_file (includes excludes : list string)
      (minimatchOptions : option MinimatchOptions) (singlePath : string) :
  accepts includes excludes minimatchOptions singlePath KFile = true
  <-> find_match (positivePatterns includes) singlePath minimatchOptions false = true
      /\ (find_match (negativePatterns excludes) singlePath minimatchOptions false = true
          \/ find_match (negativePatterns includes ++ positivePatterns excludes)
                        singlePath minimatchOptions false = false).
Proof.
  unfold accepts. cbn [isDirectory].
  rewrite andb_true_iff, orb_true_iff, negb_true_iff. reflexivity.
Qed.

(** What [filterPaths] allowed when it returned. *)
Lemma filterPaths_allowed (host : Host) (dirPaths includes excludes : list string)
      (minimatchOptions : option MinimatchOptions)
      (events : list Event) (allowed : list string) (singlePath : string) :
  filterPaths dirPaths includes excludes minimatchOptions host
  = (events, Returned allowed) ->
  In singlePath allowed <->
  In singlePath dirPaths
  /\ exists stats, statSync host singlePath = Some stats
                   /\ accepts includes excludes minimatchOptions singlePath stats = true.
Proof.
  intros H. pose proof (filterPaths_inv _ _ _ _ _ _ _ H) as Hstat.
  rewrite (filterPaths_returns _ _ _ _ _ Hstat) in H. injection H as _ <-.
  apply kept_In.
Qed.

(** X12: soundness of the scan.  Every path [scanSingleDir] returns is a
    file that, matched exactly, matches a positive include and either
    matches a negated exclude or matches no negated include and no positive
    exclude. *)
Theorem scanSingleDir_sound
        (host : Host) (fuel : nat) (dirPath : string) (includes excludes : list string)
        (minimatchOptions : option MinimatchOptions)
        (events : list Event) (found : list string) :
  scanSingleDir fuel dirPath includes excludes minimatchOptions host
  = (events, Returned found) ->
  Forall (fun p =>
            statSync host p = Some KFile
            /\ find_match (positivePatterns includes) p minimatchOptions false = true
            /\ (find_match (negativePatterns excludes) p minimatchOptions false = true
                \/ find_match (negativePatterns includes ++ positivePatterns excludes)
                              p minimatchOptions false = false))
         found.
Proof.
  revert dirPath events found.
  induction fuel as [|fuel IH]; intros dirPath events found H;
    apply scanSingleDir_inv in H;
    destruct H as (fuel' & names & ev1 & allowed & ev2 & Hf & _ & Hfilter & Hloop);
    [discriminate|].
  injection Hf as <-.
  eapply (each_invariant_In (Forall _)); [|constructor|exact Hloop].
  intros acc x ev b Hx Hacc Hentry. unfold scanEntry in Hentry.
  apply bind_inv in Hentry. destruct Hentry as (ev3 & stats & ev4 & H1 & H2 & _).
  apply fs_statSync_inv in H1. destruct H1 as [Hs _].
  apply (filterPaths_allowed _ _ _ _ _ _ _ _ Hfilter) in Hx.
  destruct Hx as (_ & stats' & Hs' & Haccepts).
  rewrite Hs in Hs'. injection Hs' as <-.
  destruct stats; cbn [isDirectory isFile] in H2.
  - unfold ret in H2. injection H2 as _ <-.
    apply Forall_app. split; [exact Hacc|]. constructor; [|constructor].
    split; [exact Hs|]. now apply accepts_file.
  - apply bind_inv in H2. destruct H2 as (ev5 & sub & ev6 & H3 & H4 & _).
    apply IH in H3.
    destruct (JS.nonempty sub); unfold ret in H4; injection H4 as _ <-;
      [apply Forall_app; now split | exact Hacc].
  - unfold ret in H2. now injection H2 as _ <-.
Qed.

Lemma each_scanEntry_collects (host : Host) (scan : string -> Eff (list string))
      (l acc : list string) (events : list Event) (found : list string) :
  each l (scanEntry scan) acc host = (events, Returned found) ->
  incl acc found
  /\ forall x, In x l ->
       (statSync host x = Some KFile -> In x found)
       /\ (statSync host x = Some KDirectory ->
           exists events' sub,
             scan x host = (events', Returned sub) /\ incl sub found).
Proof.
  revert acc events.
  induction l as [|x l IH]; intros acc events H; cbn [each] in H.
  - unfold ret in H. injection H as _ <-. split; [apply incl_refl | intros x []].
  - apply bind_inv in H. destruct H as (ev1 & acc' & ev2 & H1 & H2 & _).
    destruct (IH _ _ H2) as [Hacc' Hl].
    unfold scanEntry in H1. apply bind_inv in H1.
    destruct H1 as (ev3 & stats & ev4 & H3 & H4 & _).
    apply fs_statSync_inv in H3. destruct H3 as [Hs _].
    assert (incl acc acc'
            /\ (stats = KFile -> In x acc')
            /\ (stats = KDirectory ->
                exists events' sub,
                  scan x host = (events', Returned sub) /\ incl sub acc'))
      as (Hacc & Hfile & Hdir).
    { destruct stats; cbn [isDirectory isFile] in H4.
      - unfold ret in H4. injection H4 as _ <-.
        split; [apply incl_appl, incl_refl|].
        split; [intros _; apply in_or_app; right; now left | discriminate].
      - apply bind_inv in H4. destruct H4 as (ev5 & sub & ev6 & H5 & H6 & _).
        destruct sub as [|s sub]; cbn [JS.nonempty] in H6; unfold ret in H6;
          injection H6 as _ <-.
        + split; [apply incl_refl|]. split; [discriminate|].
          intros _. exists ev5, []. split; [exact H5 | intros y []].
        + split; [apply incl_appl, incl_refl|]. split; [discriminate|].
          intros _. exists ev5, (s :: sub).
          split; [exact H5 | apply incl_appr, incl_refl].
      - unfold ret in H4. injection H4 as _ <-.
        split; [apply incl_refl|]. split; discriminate. }
    split; [eapply incl_tran; eassumption|].
    intros y [<-|Hy]; [|now apply Hl].
    split.
    + intros Hy. rewrite Hs in Hy. injection Hy as ->. apply Hacc'. now apply Hfile.
    + intros Hy. rewrite Hs in Hy. injection Hy as ->.
      destruct (Hdir eq_refl) as (ev' & sub & Hscan & Hsub).
      exists ev', sub. split; [exact Hscan | eapply incl_tran; eassumption].
Qed.

(** Every path a scan returns is a file it was led to. *)
Lemma scanSingleDir_found_led_to
      (host : Host) (fuel : nat) (dirPath : string) (includes excludes : list string)
      (minimatchOptions : option MinimatchOptions)
      (events : list Event) (found : list string) :
  scanSingleDir fuel dirPath includes excludes minimatchOptions host
  = (events, Returned found) ->
  Forall (led_to host includes excludes minimatchOptions dirPath) found.
Proof.
  revert dirPath events found.
  induction fuel as [|fuel IH]; intros dirPath events found H;
    apply scanSingleDir_inv in H;
    destruct H as (fuel' & names & ev1 & allowed & ev2 & Hf & Hdir & Hfilter & Hloop);
    [discriminate|].
  injection Hf as <-.
  eapply (each_invariant_In (Forall _)); [|constructor|exact Hloop].
  intros acc x ev b Hx Hacc Hentry.
  apply (filterPaths_allowed _ _ _ _ _ _ _ _ Hfilter) in Hx.
  destruct Hx as (Hx & stats' & Hs' & Haccepts).
  apply (proj1 (SortFacts.sort_In _ _)) in Hx. unfold entryPaths in Hx.
  apply in_map_iff in Hx. destruct Hx as (name & <- & Hname).
  unfold scanEntry in Hentry.
  apply bind_inv in Hentry. destruct Hentry as (ev3 & stats & ev4 & H1 & H2 & _).
  apply fs_statSync_inv in H1. destruct H1 as [Hs _].
  rewrite Hs in Hs'. injection Hs' as <-.
  destruct stats; cbn [isDirectory isFile] in H2.
  - unfold ret in H2. injection H2 as _ <-.
    apply Forall_app. split; [exact Hacc|]. constructor; [|constructor].
    now apply (led_to_file _ _ _ _ _ names).
  - apply bind_inv in H2. destruct H2 as (ev5 & sub & ev6 & H3 & H4 & _).
    apply IH in H3.
    destruct (JS.nonempty sub); unfold ret in H4; injection H4 as _ <-;
      [|exact Hacc].
    apply Forall_app. split; [exact Hacc|].
    eapply Forall_impl; [|exact H3]. cbv beta. intros p Hp.
    now apply (led_to_directory _ _ _ _ _ names name).
  - unfold ret in H2. now injection H2 as _ <-.
Qed.

(** Every file a scan is led to is in what it returns. *)
Lemma scanSingleDir_led_to_found
      (host : Host) (dirPath filePath : string) (includes excludes : list string)
      (minimatchOptions : option MinimatchOptions) :
  led_to host includes excludes minimatchOptions dirPath filePath ->
  forall fuel events found,
    scanSingleDir fuel dirPath includes excludes minimatchOptions host
    = (events, Returned found) ->
    In filePath found.
Proof.
  intros Hled.
  induction Hled as [dirPath names name Hdir Hname Hs Hacc
                    |dirPath names name filePath Hdir Hname Hs Hacc _ IH];
    intros fuel events found H;
    apply scanSingleDir_inv in H;
    destruct H as (fuel' & names' & ev1 & allowed & ev2 & Hf & Hdir' & Hfilter & Hloop);
    rewrite Hdir in Hdir'; injection Hdir' as <-;
    apply each_scanEntry_collects in Hloop; destruct Hloop as [_ Hloop];
    match type of Hs with
    | statSync _ ?singlePath = Some ?stats =>
        assert (In singlePath allowed) as Hallowed
          by (apply (filterPaths_allowed _ _ _ _ _ _ _ _ Hfilter); split;
              [apply SortFacts.sort_In;
               exact (in_map (fun subPath => Path.resolve (cwd host) [dirPath; subPath])
                             names name Hname)
              | now exists stats])
    end;
    destruct (Hloop _ Hallowed) as [Hfile Hsub].
  - now apply Hfile.
  - destruct (Hsub Hs) as (ev' & sub & Hscan & Hincl).
    apply Hincl. now apply (IH fuel' ev').
Qed.

(** X13: what a scan finds.  When [scanSingleDir] returns, the paths in
    its result are exactly the files it is led to from its directory: the
    accepted files of the directory itself and of every directory reached
    through accepted directories.  Nothing else is reported and none of
    these is missed. *)
Theorem scanSingleDir_finds_exactly
        (host : Host) (fuel : nat) (dirPath : string) (includes excludes : list string)
        (minimatchOptions : option MinimatchOptions)
        (events : list Event) (found : list string) :
  scanSingleDir fuel dirPath includes excludes minimatchOptions host
  = (events, Returned found) ->
  forall filePath,
    In filePath found
    <-> led_to host includes excludes minimatchOptions dirPath filePath.
Proof.
  intros H filePath. split.
  - revert filePath. apply Forall_forall.
    now apply (scanSingleDir_found_led_to _ _ _ _ _ _ _ _ H).
  - intros Hled. now apply (scanSingleDir_led_to_found _ _ _ _ _ _ Hled _ _ _ H).
Qed.

Lemma filterPaths_events (host : Host) (dirPaths includes excludes : list string)
      (minimatchOptions : option MinimatchOptions) (Q : Event -> Prop) :
  (forall path, Q (Stat path)) ->
  Forall Q (fst (filterPaths dirPaths includes excludes minimatchOptions host)).
Proof.
  intros HQ. unfold filterPaths. apply each_events.
  intros acc x _. unfold filterEntry.
  apply bind_events.
  - unfold fs_statSync. cbn [fst]. now repeat constructor.
  - intros events stats _. cbn zeta.
    repeat match goal with
           | |- context [if ?b then _ else _] => destruct b
           end; constructor.
Qed.

(** X14: pruning.  Whatever the outcome of a scan, the only directories it
    has listed are the one it was started on and directories that
    [filterPaths] accepted by the relaxed directory test; and it has logged
    nothing. *)
Theorem scanSingleDir_lists_only_accepted
        (host : Host) (fuel : nat) (dirPath : string) (includes excludes : list string)
        (minimatchOptions : option MinimatchOptions) :
  Forall (fun event =>
            match event with
            | Logged _ => False
            | ReadDir path =>
                path = dirPath
                \/ (statSync host path = Some KDirectory
                    /\ accepts includes excludes minimatchOptions path KDirectory = true)
            | Stat _ => True
            end)
         (fst (scanSingleDir fuel dirPath includes excludes minimatchOptions host)).
Proof.
  revert dirPath.
  induction fuel as [|fuel IH]; intros dirPath; [constructor|].
  cbn [scanSingleDir].
  apply bind_events.
  { unfold fs_readdirSync. cbn [fst]. constructor; [now left | constructor]. }
  intros ev0 names _.
  apply bind_events; [constructor|]. intros ev1 here _.
  apply bind_events; [now apply filterPaths_events|].
  intros ev2 allowed Hfilter.
  apply each_events. intros acc x Hx. unfold scanEntry.
  apply bind_events.
  { unfold fs_statSync. cbn [fst]. now repeat constructor. }
  intros ev3 stats Hstat. apply fs_statSync_inv in Hstat. destruct Hstat as [Hs _].
  apply (filterPaths_allowed _ _ _ _ _ _ _ _ Hfilter) in Hx.
  destruct Hx as (_ & stats' & Hs' & Hacc).
  rewrite Hs in Hs'. injection Hs' as <-.
  destruct stats; cbn [isDirectory isFile]; try constructor.
  apply bind_events.
  - eapply Forall_impl; [|apply IH].
    intros [line|path|path]; try tauto.
    intros [->|H]; right; [now split | exact H].
  - intros ev4 sub _. destruct (JS.nonempty sub); constructor.
Qed.

(** What a scan throws was raised by a listing or a stat. *)
Lemma scanSingleDir_threw
        (host : Host) (fuel : nat) (dirPath : string) (includes excludes : list string)
        (minimatchOptions : option MinimatchOptions)
        (events : list Event) (e : Exception) :
  scanSingleDir fuel dirPath includes excludes minimatchOptions host
  = (events, Threw e) ->
  exists path,
    e = FsFailure path
    /\ (readdirSync host path = None \/ statSync host path = None).
Proof.
  revert dirPath events.
  induction fuel as [|fuel IH]; intros dirPath events H; [discriminate|].
  cbn [scanSingleDir] in H.
  apply bind_threw_inv in H. destruct H as [H|(ev1 & names & ev2 & _ & H & _)].
  { unfold fs_readdirSync in H.
    destruct (readdirSync host dirPath) eqn:E; [discriminate|].
    injection H as _ <-. exists dirPath. auto. }
  apply bind_threw_inv in H. destruct H as [H|(ev3 & here & ev4 & _ & H & _)];
    [discriminate|].
  apply bind_threw_inv in H. destruct H as [H|(ev5 & allowed & ev6 & _ & H & _)].
  { unfold filterPaths in H. apply each_threw_inv in H.
    destruct H as (acc & x & ev & _ & H). unfold filterEntry in H.
    apply bind_threw_inv in H. destruct H as [H|(ev7 & stats & ev8 & _ & H & _)].
    - unfold fs_statSync in H.
      destruct (statSync host x) eqn:E; [discriminate|].
      injection H as _ <-. exists x. auto.
    - cbn zeta in H.
      repeat match type of H with
             | context [if ?b then _ else _] => destruct b
             end; discriminate. }
  apply each_threw_inv in H. destruct H as (acc & x & ev & _ & H).
  unfold scanEntry in H.
  apply bind_threw_inv in H. destruct H as [H|(ev7 & stats & ev8 & _ & H & _)].
  - unfold fs_statSync in H.
    destruct (statSync host x) eqn:E; [discriminate|].
    injection H as _ <-. exists x. auto.
  - destruct (isDirectory stats).
    + apply bind_threw_inv in H. destruct H as [H|(ev9 & sub & ev10 & _ & H & _)].
      * now apply IH in H.
      * destruct (JS.nonempty sub); discriminate.
    + destruct (isFile stats); discriminate.
Qed.

(** X15: a scan fails only as the filesystem fails, and stops there.  What
    it throws is the error of a path that could not be listed or could not
    be stat'ed, and that failed call is the last thing the scan did; it never
    raises a failure of its own. *)
Theorem scanSingleDir_failure
        (host : Host) (fuel : nat) (dirPath : string) (includes excludes : list string)
        (minimatchOptions : option MinimatchOptions)
        (events : list Event) (e : Exception) :
  scanSingleDir fuel dirPath includes excludes minimatchOptions host
  = (events, Threw e) ->
  exists path before,
    e = FsFailure path
    /\ ((readdirSync host path = None /\ events = before ++ [ReadDir path])
        \/ (statSync host path = None /\ events = before ++ [Stat path])).
Proof.
  revert dirPath events.
  induction fuel as [|fuel IH]; intros dirPath events H; [discriminate|].
  cbn [scanSingleDir] in H.
  apply bind_threw_inv in H. destruct H as [H|(ev1 & names & ev2 & _ & H & ->)].
  { unfold fs_readdirSync in H.
    destruct (readdirSync host dirPath) eqn:E; [discriminate|].
    injection H as <- <-. exists dirPath, []. split; [reflexivity|]. left. now split. }
  apply bind_threw_inv in H. destruct H as [H|(ev3 & here & ev4 & _ & H & ->)];
    [discriminate|].
  apply bind_threw_inv in H. destruct H as [H|(ev5 & allowed & ev6 & _ & H & ->)].
  { unfold filterPaths in H. apply each_threw_at in H.
    destruct H as (acc & x & before & ev & _ & H & ->). unfold filterEntry in H.
    apply bind_threw_inv in H. destruct H as [H|(ev7 & stats & ev8 & _ & H & _)].
    - unfold fs_statSync in H.
      destruct (statSync host x) eqn:E; [discriminate|].
      injection H as <- <-. exists x, (ev1 ++ ev3 ++ before).
      split; [reflexivity|]. right. split; [exact E|].
      rewrite <- ?app_assoc. reflexivity.
    - cbn zeta in H.
      repeat match type of H with
             | context [if ?b then _ else _] => destruct b
             end; discriminate. }
  apply each_threw_at in H. destruct H as (acc & x & before & ev & _ & H & ->).
  unfold scanEntry in H.
  apply bind_threw_inv in H. destruct H as [H|(ev7 & stats & ev8 & _ & H & ->)].
  - unfold fs_statSync in H.
    destruct (statSync host x) eqn:E; [discriminate|].
    injection H as <- <-. exists x, (ev1 ++ ev3 ++ ev5 ++ before).
    split; [reflexivity|]. right. split; [exact E|].
    rewrite <- ?app_assoc. reflexivity.
  - destruct (isDirectory stats).
    + apply bind_threw_inv in H. destruct H as [H|(ev9 & sub & ev10 & _ & H & _)].
      * apply IH in H. destruct H as (path & before' & -> & Hcase).
        exists path, (ev1 ++ ev3 ++ ev5 ++ before ++ ev7 ++ before').
        split; [reflexivity|].
        destruct Hcase as [[Hnone ->]|[Hnone ->]]; [left | right];
          (split; [exact Hnone|]); rewrite <- ?app_assoc; reflexivity.
      * destruct (JS.nonempty sub); discriminate.
    + destruct (isFile stats); discriminate.
Qed.

(** X16: how [findFiles] can fail.  It throws the invalid-pattern failure
    only when some include or exclude violates the active rule set; any
    other failure comes from the filesystem, with all patterns valid. *)
Theorem findFiles_failure
        (host : Host) (fuel : nat) (rootPath : string) (includes excludes : list string)
        (minimatchOptions : option MinimatchOptions) (rules : option Rules)
        (events : list Event) (e : Exception) :
  findFiles fuel rootPath includes excludes minimatchOptions rules host
  = (events, Threw e) ->
  (e = FluidFailure
         "One or more glob patterns you have entered are invalid.  Cannot continue."
   /\ exists pattern_,
       In pattern_ (includes ++ excludes) /\ validatePattern pattern_ rules <> [])
  \/ (validatePatternArray includes rules = []
      /\ validatePatternArray excludes rules = []
      /\ exists path,
          e = FsFailure path
          /\ (readdirSync host path = None \/ statSync host path = None)).
Proof.
  intros H.
  destruct (validatePatternArray includes rules ++ validatePatternArray excludes rules)
    as [|v l] eqn:E.
  - apply app_eq_nil in E. destruct E as [Ei Ee]. right.
    rewrite (findFiles_valid _ _ _ _ _ _ _ Ei Ee) in H.
    split; [exact Ei|]. split; [exact Ee|].
    eapply scanSingleDir_threw. exact H.
  - left. rewrite findFiles_invalid in H by (rewrite E; discriminate).
    injection H as _ <-. split; [reflexivity|].
    rewrite !validatePatternArray_flat_map, <- flat_map_app in E.
    assert (In v (flat_map (fun p => validatePattern p rules) (includes ++ excludes)))
      as Hv by (rewrite E; now left).
    apply in_flat_map in Hv. destruct Hv as (p & Hp & Hv).
    exists p. split; [exact Hp|]. intros Hnil. rewrite Hnil in Hv. contradiction.
Qed.

(** X21: what [findFiles] finds.  When it returns, every include and
    exclude is valid, and its result is exactly the files a scan is led to
    from the sanitised root by the rooted includes and excludes. *)
Theorem findFiles_finds_exactly
        (host : Host) (fuel : nat) (rootPath : string) (includes excludes : list string)
        (minimatchOptions : option MinimatchOptions) (rules : option Rules)
        (events : list Event) (found : list string) :
  findFiles fuel rootPath includes excludes minimatchOptions rules host
  = (events, Returned found) ->
  let resolvedPath := sanitisePath (resolvePath host rootPath) in
  validatePatternArray includes rules = []
  /\ validatePatternArray excludes rules = []
  /\ forall filePath,
      In filePath found
      <-> led_to host (addPathToPatterns (cwd host) resolvedPath includes)
                 (addPathToPatterns (cwd host) resolvedPath excludes)
                 minimatchOptions resolvedPath filePath.
Proof.
  intros H resolvedPath.
  destruct (validatePatternArray includes rules ++ validatePatternArray excludes rules)
    as [|v l] eqn:E.
  - apply app_eq_nil in E. destruct E as [Ei Ee].
    rewrite (findFiles_valid _ _ _ _ _ _ _ Ei Ee) in H.
    split; [exact Ei|]. split; [exact Ee|]. intros filePath. split.
    + revert filePath. apply Forall_forall.
      now apply (scanSingleDir_found_led_to _ _ _ _ _ _ _ _ H).
    + intros Hled. now apply (scanSingleDir_led_to_found _ _ _ _ _ _ Hled _ _ _ H).
  - rewrite findFiles_invalid in H by (rewrite E; discriminate). discriminate.
Qed.

(** ** Order of the scan *)

(** The loop over the allowed entries, when every entry can be stat'ed and
    the scan of each directory among them is known. *)
Lemma each_scanEntry_exact (host : Host) (scan : string -> Eff (list string))
      (calls : string -> list Event) (matches : string -> list string)
      (l acc : list string) :
  Forall (fun x => statSync host x <> None) l ->
  Forall (fun x => statSync host x = Some KDirectory ->
                   scan x host = (calls x, Returned (matches x))) l ->
  each l (scanEntry scan) acc host
  = (flat_map (fun x => Stat x :: match statSync host x with
                                  | Some KDirectory => calls x
                                  | _ => []
                                  end) l,
     Returned (acc ++ flat_map (fun x => match statSync host x with
                                         | Some KFile => [x]
                                         | Some KDirectory => matches x
                                         | _ => []
                                         end) l)).
Proof.
  intros Hs Hd. revert acc.
  induction l as [|x l IH]; intros acc; cbn [each flat_map].
  - unfold ret. now rewrite app_nil_r.
  - inversion Hs as [|? ? Hx Hs']; inversion Hd as [|? ? Hdx Hd']; subst.
    destruct (statSync host x) as [stats|] eqn:E; [|congruence].
    assert (scanEntry scan acc x host
            = (Stat x :: match stats with KDirectory => calls x | _ => [] end,
               Returned (acc ++ match stats with
                                | KFile => [x]
                                | KDirectory => matches x
                                | KOther => []
                                end))) as Hentry.
    { unfold scanEntry. rewrite (bind_returned _ _ _ _ _ (fs_statSync_some _ _ _ E)).
      destruct stats; cbn [isDirectory isFile].
      - reflexivity.
      - rewrite (bind_returned _ _ _ _ _ (Hdx eq_refl)).
        destruct (matches x); cbn [JS.nonempty]; unfold ret; cbn [fst snd app];
          now rewrite ?app_nil_r.
      - unfold ret. cbn [fst snd app]. now rewrite app_nil_r. }
    rewrite (bind_returned _ _ _ _ _ Hentry), (IH Hs' Hd'). cbn [fst snd].
    now rewrite <- app_assoc.
Qed.

Lemma kept_stat (host : Host) (decision : string -> Kind -> bool)
      (dirPaths : list string) :
  Forall (fun x => statSync host x <> None) (kept host decision dirPaths).
Proof.
  apply Forall_forall. intros x Hx. apply kept_In in Hx.
  destruct Hx as (_ & stats & Hs & _). congruence.
Qed.

(** A scan that returns has made the calls and found the paths the
    specification gives, in their order. *)
Lemma scanSingleDir_exact
      (host : Host) (fuel : nat) (dirPath : string) (includes excludes : list string)
      (minimatchOptions : option MinimatchOptions)
      (events : list Event) (found : list string) :
  scanSingleDir fuel dirPath includes excludes minimatchOptions host
  = (events, Returned found) ->
  events = expected_calls host includes excludes minimatchOptions fuel dirPath
  /\ found = expected_matches host includes excludes minimatchOptions fuel dirPath.
Proof.
  revert dirPath events found.
  induction fuel as [|fuel IH]; intros dirPath events found H; [discriminate|].
  pose proof H as H0. apply scanSingleDir_inv in H0.
  destruct H0 as (fuel' & names & ev1 & allowed & ev2 & Hf & Hdir & Hfilter & Hloop).
  injection Hf as <-.
  pose proof (filterPaths_inv _ _ _ _ _ _ _ Hfilter) as Hstat.
  rewrite (filterPaths_returns _ _ _ _ _ Hstat) in Hfilter.
  injection Hfilter as <- <-.
  apply each_scanEntry_collects in Hloop. destruct Hloop as [_ Hsub].
  rewrite (scanSingleDir_filtered _ _ _ _ _ _ _ _ _ Hdir
             (filterPaths_returns _ _ _ _ _ Hstat)) in H.
  cbn zeta in H.
  rewrite (each_scanEntry_exact
             host _
             (expected_calls host includes excludes minimatchOptions fuel)
             (expected_matches host includes excludes minimatchOptions fuel)) in H.
  - cbn [fst snd app] in H. injection H as <- <-.
    cbn [expected_calls expected_matches]. now rewrite Hdir.
  - apply kept_stat.
  - apply Forall_forall. intros x Hx Hs.
    destruct (Hsub x Hx) as [_ Hd].
    destruct (Hd Hs) as (ev' & sub & Hscan & _).
    destruct (IH _ _ _ Hscan) as [<- <-]. exact Hscan.
Qed.

(** C9: every path [scanSingleDir], and hence [findFiles], returns is a
    file.  The entries of a directory are put in ascending order of their
    code units before anything is done with them.  A scan that returns has
    listed its directory, stat'ed the entries in that order and gone through
    the accepted ones in that order, scanning each directory among them
    before the next entry: its calls and its result, order included, are
    those the specification gives.  So the run and its result are the same
    on two hosts showing the same snapshot, however each lists its
    directories.  On a host that can be scanned to the depth of the fuel the
    scan does return. *)
Theorem scan_returns_files_in_sorted_order
        (host host' : Host) (fuel : nat) (dirPath : string)
        (includes excludes : list string)
        (minimatchOptions : option MinimatchOptions) :
  same_snapshot host host' ->
  scanSingleDir fuel dirPath includes excludes minimatchOptions host'
  = scanSingleDir fuel dirPath includes excludes minimatchOptions host
  /\ (forall rootPath rules,
         findFiles fuel rootPath includes excludes minimatchOptions rules host'
         = findFiles fuel rootPath includes excludes minimatchOptions rules host)
  /\ (forall events found,
         scanSingleDir fuel dirPath includes excludes minimatchOptions host
         = (events, Returned found) ->
         Forall (fun p => statSync host p = Some KFile) found
         /\ events = expected_calls host includes excludes minimatchOptions fuel dirPath
         /\ found = expected_matches host includes excludes minimatchOptions
                                     fuel dirPath)
  /\ (forall rootPath rules events found,
         findFiles fuel rootPath includes excludes minimatchOptions rules host
         = (events, Returned found) ->
         let resolvedPath := sanitisePath (resolvePath host rootPath) in
         Forall (fun p => statSync host p = Some KFile) found
         /\ found
            = expected_matches host
                (addPathToPatterns (cwd host) resolvedPath includes)
                (addPathToPatterns (cwd host) resolvedPath excludes)
                minimatchOptions fuel resolvedPath)
  /\ (forall names,
         let entries := sort (entryPaths host dirPath names) in
         Sorted (fun a b => UTF16.leb a b = true) entries
         /\ Permutation (entryPaths host dirPath names) entries
         /\ (readdirSync host dirPath = Some names ->
             Forall (fun p => statSync host p <> None) (entryPaths host dirPath names) ->
             fst (scanSingleDir (S fuel) dirPath includes excludes
                                minimatchOptions host)
             = ReadDir dirPath :: map Stat entries
               ++ fst (each (kept host (accepts includes excludes minimatchOptions)
                                  entries)
                            (scanEntry (fun singlePath =>
                                          scanSingleDir fuel singlePath includes
                                                        excludes minimatchOptions))
                            [] host)))
  /\ (scannable host fuel dirPath ->
      scanSingleDir fuel dirPath includes excludes minimatchOptions host
      = (expected_calls host includes excludes minimatchOptions fuel dirPath,
         Returned (expected_matches host includes excludes minimatchOptions
                                    fuel dirPath))
      /\ Forall (fun p => statSync host p = Some KFile)
                (expected_matches host includes excludes minimatchOptions
                                  fuel dirPath)).
Proof.
  intros Hsame. split; [|split; [|split; [|split; [|split]]]].
  - symmetry. now apply scanSingleDir_same_snapshot.
  - intros rootPath rules. symmetry. now apply findFiles_same_snapshot.
  - intros events found H. split; [now apply (scanSingleDir_files _ _ _ _ _ _ _ _ H)|].
    now apply scanSingleDir_exact.
  - intros rootPath rules events found H resolvedPath.
    split; [now apply (findFiles_files _ _ _ _ _ _ _ _ _ H)|].
    destruct (validatePatternArray includes rules ++ validatePatternArray excludes rules)
      as [|v l] eqn:E.
    + apply app_eq_nil in E. destruct E as [Ei Ee].
      rewrite (findFiles_valid _ _ _ _ _ _ _ Ei Ee) in H.
      now apply scanSingleDir_exact in H.
    + rewrite findFiles_invalid in H by (rewrite E; discriminate). discriminate.
  - intros names entries. split; [apply SortFacts.sort_sorted|].
    split; [apply SortFacts.sort_permutation|].
    intros Hdir Hstat. apply SortFacts.sort_Forall in Hstat.
    now rewrite (scanSingleDir_filtered _ _ _ _ _ _ _ _ _ Hdir
                   (filterPaths_returns _ _ _ _ _ Hstat)).
  - intros Hscan.
    destruct (scanSingleDir_returns host fuel dirPath includes excludes
                                    minimatchOptions Hscan)
      as (events & found & E).
    destruct (scanSingleDir_exact _ _ _ _ _ _ _ _ E) as [<- <-].
    split; [exact E|]. eapply scanSingleDir_files. exact E.
Qed.

End ScannerFurther.

Lemma scan_returns_files_in_sorted_order_witness :
  scanSingleDir 4 "/fixture" ["/fixture/src/**/*.js"] [] None fixture_backwards
  = scanSingleDir 4 "/fixture" ["/fixture/src/**/*.js"] [] None fixture
  /\ Forall (fun p => statSync fixture p = Some KFile)
            ["/fixture/src/deep/deep-file.js";
             "/fixture/src/deep/deeper/deeper-file.js";
             "/fixture/src/src-file.js"]
  /\ ["/fixture/src/deep/deep-file.js";
      "/fixture/src/deep/deeper/deeper-file.js";
      "/fixture/src/src-file.js"]
     = expected_matches fixture ["/fixture/src/**/*.js"] [] None 4 "/fixture".
Proof.
  destruct (scan_returns_files_in_sorted_order
              fixture fixture_backwards 4 "/fixture" ["/fixture/src/**/*.js"] [] None
              (tableHost_backwards fixture_dirs fixture_entries))
    as (E & _ & F & _).
  split; [exact E|].
  destruct (F _ _ eq_refl) as (Hfiles & _ & Hfound).
  split; [exact Hfiles | exact Hfound].
Defined.

Lemma scanSingleDir_sound_witness :
  Forall (fun p =>
            statSync fixture p = Some KFile
            /\ find_match (positivePatterns ["/fixture/src/**/*.js"]) p None false = true
            /\ (find_match (negativePatterns ["/fixture/src/**/deeper/*.js"]) p None false
                = true
                \/ find_match (negativePatterns ["/fixture/src/**/*.js"]
                               ++ positivePatterns ["/fixture/src/**/deeper/*.js"])
                              p None false = false))
         ["/fixture/src/deep/deep-file.js"; "/fixture/src/src-file.js"].
Proof.
  eapply (scanSingleDir_sound fixture 4 "/fixture" ["/fixture/src/**/*.js"]
                              ["/fixture/src/**/deeper/*.js"] None).
  reflexivity.
Defined.

Lemma scanSingleDir_finds_exactly_witness :
  In "/fixture/src/deep/deep-file.js"
     ["/fixture/src/deep/deep-file.js"; "/fixture/src/deep/deeper/deeper-file.js";
      "/fixture/src/src-file.js"]
  <-> led_to fixture ["/fixture/src/**/*.js"] [] None
             "/fixture" "/fixture/src/deep/deep-file.js".
Proof.
  apply (scanSingleDir_finds_exactly
           fixture 4 "/fixture" ["/fixture/src/**/*.js"] [] None
           [ReadDir "/fixture"; Stat "/fixture/.dot-file.js";
            Stat "/fixture/node_modules"; Stat "/fixture/root-file.js";
            Stat "/fixture/src"; Stat "/fixture/tests"; Stat "/fixture/src";
            ReadDir "/fixture/src"; Stat "/fixture/src/deep";
            Stat "/fixture/src/src-file.js"; Stat "/fixture/src/deep";
            ReadDir "/fixture/src/deep"; Stat "/fixture/src/deep/deep-file.js";
            Stat "/fixture/src/deep/deeper"; Stat "/fixture/src/deep/deep-file.js";
            Stat "/fixture/src/deep/deeper"; ReadDir "/fixture/src/deep/deeper";
            Stat "/fixture/src/deep/deeper/deeper-file.js";
            Stat "/fixture/src/deep/deeper/deeper-file.js";
            Stat "/fixture/src/src-file.js"]).
  reflexivity.
Defined.

Lemma findFiles_finds_exactly_witness :
  validatePatternArray ["./src/**/*.js"] None = []
  /\ validatePatternArray ["./src/deep/deeper"] None = []
  /\ forall filePath,
      In filePath ["/fixture/src/deep/deep-file.js"; "/fixture/src/src-file.js"]
      <-> led_to fixture
                 (addPathToPatterns (cwd fixture)
                                    (sanitisePath (resolvePath fixture "/fixture"))
                                    ["./src/**/*.js"])
                 (addPathToPatterns (cwd fixture)
                                    (sanitisePath (resolvePath fixture "/fixture"))
                                    ["./src/deep/deeper"])
                 None (sanitisePath (resolvePath fixture "/fixture")) filePath.
Proof.
  eapply (findFiles_finds_exactly
            fixture 4 "/fixture" ["./src/**/*.js"] ["./src/deep/deeper"] None None).
  reflexivity.
Defined.

Lemma scanSingleDir_failure_witness :
  exists path before,
    FsFailure "/fixture/gone.js" = FsFailure path
    /\ ((readdirSync danglingTree path = None
         /\ [ReadDir "/fixture"; Stat "/fixture/a.js"; Stat "/fixture/gone.js"]
            = before ++ [ReadDir path])
        \/ (statSync danglingTree path = None
            /\ [ReadDir "/fixture"; Stat "/fixture/a.js"; Stat "/fixture/gone.js"]
               = before ++ [Stat path])).
Proof.
  apply (scanSingleDir_failure danglingTree 2 "/fixture" ["/fixture/*.js"] [] None).
  reflexivity.
Defined.

Lemma findFiles_failure_witness :
  (FsFailure "/fixture/gone.js"
   = FluidFailure
       "One or more glob patterns you have entered are invalid.  Cannot continue."
   /\ exists pattern_,
       In pattern_ (["./*.js"] ++ []) /\ validatePattern pattern_ None <> [])
  \/ (validatePatternArray ["./*.js"] None = []
      /\ validatePatternArray [] None = []
      /\ exists path,
          FsFailure "/fixture/gone.js" = FsFailure path
          /\ (readdirSync danglingTree path = None \/ statSync danglingTree path = None)).
Proof.
  eapply (findFiles_failure danglingTree 2 "/fixture" ["./*.js"] [] None None).
  reflexivity.
Defined.

(** ** Path sanitising *)

Lemma contains_app (f : ascii -> bool) (a b : string) :
  contains f (a ++ b) = contains f a || contains f b.
Proof.
  unfold contains.
  induction a as [|c a IH]; cbn [String.append list_ascii_of_string existsb];
    [reflexivity|].
  now rewrite IH, orb_assoc.
Qed.

Lemma contains_join (f : ascii -> bool) (segments : list string) :
  f "/"%char = false ->
  Forall (fun segment => contains f segment = false) segments ->
  contains f (JS.join "/" segments) = false.
Proof.
  intros Hsep H. unfold JS.join.
  induction H as [|seg segs Hseg Hsegs IH]; [reflexivity|].
  cbn [String.concat]. destruct segs as [|seg' segs']; [exact Hseg|].
  rewrite !contains_app, Hseg, IH. unfold contains at 1. cbn. now rewrite Hsep.
Qed.

Lemma contains_weaken (f g : ascii -> bool) (s : string) :
  (forall c, f c = true -> g c = true) ->
  contains g s = false -> contains f s = false.
Proof.
  intros Hfg. unfold contains.
  induction (list_ascii_of_string s) as [|c l IH]; cbn [existsb]; [reflexivity|].
  intros H. apply orb_false_iff in H. destruct H as [Hc Hl].
  apply orb_false_iff. split; [|now apply IH].
  destruct (f c) eqn:E; [|reflexivity]. apply Hfg in E. congruence.
Qed.

Lemma split_runs_from_nonempty (is_sep : ascii -> bool) (prev_sep : bool) (s : string) :
  Regex.split_runs_from is_sep prev_sep s <> [].
Proof.
  revert prev_sep.
  induction s as [|c s IH]; intros prev_sep; cbn [Regex.split_runs_from];
    [discriminate|].
  destruct (is_sep c); [destruct prev_sep; [apply IH | discriminate]|].
  destruct (Regex.split_runs_from is_sep false s); discriminate.
Qed.

(** The segments [split_runs] answers hold no separator, and only the first
    and the last can be empty. *)
Lemma split_runs_from_shape (is_sep : ascii -> bool) (s : string) :
  forall prev_sep,
    Forall (fun segment => contains is_sep segment = false)
           (Regex.split_runs_from is_sep prev_sep s)
    /\ inner_nonempty (if prev_sep
                       then Regex.split_runs_from is_sep prev_sep s
                       else tl (Regex.split_runs_from is_sep prev_sep s)).
Proof.
  induction s as [|c s IH]; intros prev_sep; cbn [Regex.split_runs_from].
  - split; [now repeat constructor | destruct prev_sep; exact I].
  - destruct (is_sep c) eqn:Ec.
    + destruct prev_sep.
      * apply (IH true).
      * destruct (IH true) as [Hfree Hinner].
        split; [now constructor | exact Hinner].
    + destruct (IH false) as [Hfree Hinner].
      pose proof (split_runs_from_nonempty is_sep false s) as Hne.
      destruct (Regex.split_runs_from is_sep false s) as [|seg segs];
        [contradiction|].
      inversion Hfree as [|? ? Hseg Hsegs]; subst. cbn [tl] in Hinner.
      split.
      * constructor; [|exact Hsegs].
        unfold contains in *. cbn [list_ascii_of_string existsb]. now rewrite Ec.
      * destruct prev_sep; [|exact Hinner].
        cbn [inner_nonempty]. destruct segs; [exact I|].
        split; [discriminate | exact Hinner].
Qed.

Lemma split_runs_from_free_string (is_sep : ascii -> bool) (prev_sep : bool) (s : string) :
  contains is_sep s = false ->
  Regex.split_runs_from is_sep prev_sep s = [s].
Proof.
  unfold contains. revert prev_sep.
  induction s as [|c s IH]; intros prev_sep H; cbn [Regex.split_runs_from];
    [reflexivity|].
  cbn [list_ascii_of_string existsb] in H. apply orb_false_iff in H.
  destruct H as [Hc Hs]. rewrite Hc. now rewrite (IH false Hs).
Qed.

Lemma split_runs_from_free_app (is_sep : ascii -> bool) (prev_sep : bool)
      (h t : string) :
  is_sep "/"%char = true ->
  contains is_sep h = false ->
  (h <> "" \/ prev_sep = false) ->
  Regex.split_runs_from is_sep prev_sep (h ++ String "/" t)
  = h :: Regex.split_runs_from is_sep true t.
Proof.
  intros Hsep. unfold contains. revert prev_sep.
  induction h as [|c h IH]; intros prev_sep H Hne;
    cbn [String.append Regex.split_runs_from].
  - destruct Hne as [Hne| ->]; [contradiction|]. now rewrite Hsep.
  - cbn [list_ascii_of_string existsb] in H. apply orb_false_iff in H.
    destruct H as [Hc Hh]. rewrite Hc.
    now rewrite (IH false Hh (or_intror eq_refl)).
Qed.

(** Joining such segments with [/] and splitting again gives them back. *)
Lemma split_runs_from_join (is_sep : ascii -> bool) (segments : list string) :
  is_sep "/"%char = true ->
  Forall (fun segment => contains is_sep segment = false) segments ->
  inner_nonempty segments ->
  segments <> [] ->
  Regex.split_runs_from is_sep true (JS.join "/" segments) = segments.
Proof.
  intros Hsep Hfree. unfold JS.join.
  induction Hfree as [|seg segs Hseg Hsegs IH]; intros Hinner Hne;
    [now contradiction Hne|].
  cbn [String.concat]. destruct segs as [|seg' segs'].
  - now apply split_runs_from_free_string.
  - cbn [inner_nonempty] in Hinner. destruct Hinner as [Hseg_ne Hinner].
    cbn [String.append].
    rewrite (split_runs_from_free_app _ _ _ _ Hsep Hseg (or_introl Hseg_ne)).
    f_equal. apply IH; [exact Hinner | discriminate].
Qed.

Lemma split_runs_join (is_sep : ascii -> bool) (first : string) (rest : list string) :
  is_sep "/"%char = true ->
  Forall (fun segment => contains is_sep segment = false) (first :: rest) ->
  inner_nonempty rest ->
  Regex.split_runs_from is_sep false (JS.join "/" (first :: rest)) = first :: rest.
Proof.
  intros Hsep Hfree Hinner.
  inversion Hfree as [|? ? Hfirst Hrest]; subst.
  unfold JS.join. cbn [String.concat]. destruct rest as [|seg segs].
  - now apply split_runs_from_free_string.
  - cbn [String.append].
    rewrite (split_runs_from_free_app _ _ _ _ Hsep Hfirst (or_intror eq_refl)).
    f_equal. apply (split_runs_from_join is_sep (seg :: segs) Hsep Hrest Hinner).
    discriminate.
Qed.

Lemma test_class (items : list item) (s : string) :
  Regex.test (Cls items) s = contains (fun c => existsb (in_item c) items) s.
Proof.
  apply search_class.
Qed.

(** What [sanitisePath] answers, in its two cases. *)
Lemma sanitisePath_cases (rawPath : string) :
  (contains (fun c => existsb (Regex.in_item c) [One ":"; One "\"]) rawPath = false
   /\ sanitisePath rawPath = rawPath)
  \/ exists first rest,
      sanitisePath rawPath = JS.join "/" (first :: rest)
      /\ Forall (fun segment => contains is_separator segment = false) (first :: rest)
      /\ inner_nonempty rest
      /\ Regex.test (Seq Bol (Seq (Cls [Range "a" "z"; Range "A" "Z"])
                                  (Seq (Chr ":") Eol))) first = false.
Proof.
  unfold sanitisePath. rewrite test_class.
  destruct (contains _ rawPath) eqn:E; [right | left; auto].
  unfold Regex.split_runs. fold is_separator.
  destruct (split_runs_from_shape is_separator rawPath false) as [Hfree Hinner].
  pose proof (split_runs_from_nonempty is_separator false rawPath) as Hne.
  destruct (Regex.split_runs_from is_separator false rawPath) as [|s0 rest];
    [contradiction|].
  cbn [nth JS.slice skipn app tl] in *.
  inversion Hfree as [|? ? Hs0 Hrest]; subst.
  destruct (Regex.test _ s0) eqn:Edrive.
  - exists "", rest. repeat split; try assumption.
    constructor; [reflexivity | exact Hrest].
  - exists s0, rest. repeat split; assumption.
Qed.

(** X17: [sanitisePath] never answers a path with a backslash, and answers
    the path it was given when that path holds neither a colon nor a
    backslash. *)
Theorem sanitisePath_no_backslash (rawPath : string) :
  contains (Ascii.eqb "\") (sanitisePath rawPath) = false
  /\ (contains (fun c => Ascii.eqb c ":" || Ascii.eqb c "\") rawPath = false ->
      sanitisePath rawPath = rawPath).
Proof.
  split.
  - destruct (sanitisePath_cases rawPath) as [[Hnone ->]|(first & rest & -> & Hfree & _)].
    + revert Hnone. apply contains_weaken.
      intros c Hc. apply Ascii.eqb_eq in Hc. subst c. reflexivity.
    + apply contains_join; [reflexivity|].
      eapply Forall_impl; [|exact Hfree]. intros seg.
      apply contains_weaken.
      intros c Hc. apply Ascii.eqb_eq in Hc. subst c. reflexivity.
  - intros H. unfold sanitisePath. rewrite test_class.
    assert (contains (fun c => existsb (Regex.in_item c) [One ":"; One "\"]) rawPath
            = false) as ->; [|reflexivity].
    etransitivity; [|exact H].
    apply contains_ext. intros c. cbn [existsb Regex.in_item].
    now rewrite orb_false_r.
Qed.

(** X18: [sanitisePath] is idempotent: a sanitised path is left as it is.
    [findFiles] sanitises the root and [addPathToPatterns] sanitises it
    again; the second pass changes nothing. *)
Theorem sanitisePath_idempotent (rawPath : string) :
  sanitisePath (sanitisePath rawPath) = sanitisePath rawPath.
Proof.
  destruct (sanitisePath_cases rawPath)
    as [[_ E]|(first & rest & -> & Hfree & Hinner & Hdrive)];
    [now rewrite !E|].
  unfold sanitisePath at 1.
  destruct (Regex.test (Cls [One ":"; One "\"]) (JS.join "/" (first :: rest)));
    [|reflexivity].
  unfold Regex.split_runs. fold is_separator.
  rewrite (split_runs_join is_separator first rest eq_refl Hfree Hinner).
  cbn [nth JS.slice skipn app]. now rewrite Hdrive.
Qed.

Lemma sanitisePath_no_backslash_witness :
  contains (Ascii.eqb "\") (sanitisePath "/path/to/root") = false
  /\ sanitisePath "/path/to/root" = "/path/to/root".
Proof.
  destruct (sanitisePath_no_backslash "/path/to/root") as [H1 H2].
  split; [exact H1|]. apply H2. reflexivity.
Defined.

(** ** Path rooting: polarity and fixed points *)

Lemma addPathToPattern_positive (here sanitisedPath pattern_ : string) :
  Path.isAbsolute here = true ->
  JS.indexOf_is_0 pattern_ "!" = false ->
  JS.indexOf_is_0 (addPathToPattern here sanitisedPath pattern_) "!" = false.
Proof.
  intros Hhere H.
  destruct (contains (Ascii.eqb "/") (positivePattern pattern_)) eqn:E.
  - rewrite (addPathToPattern_multi _ _ _ E). cbn zeta.
    unfold negation_marker. rewrite H. cbn [String.append].
    match goal with
    | |- JS.indexOf_is_0 (Path.resolve ?h ?a) _ = _ =>
        pose proof (resolve_absolute h a Hhere) as Habs;
        destruct (Path.resolve h a) as [|c r]
    end; [discriminate|].
    rewrite indexOf_is_0_head. cbn [Path.isAbsolute] in Habs.
    apply Ascii.eqb_eq in Habs. now subst c.
  - now rewrite (addPathToPattern_single _ _ _ E).
Qed.

Lemma addPathToPattern_polarity (here sanitisedPath pattern_ : string) :
  Path.isAbsolute here = true ->
  JS.indexOf_is_0 (addPathToPattern here sanitisedPath pattern_) "!"
  = JS.indexOf_is_0 pattern_ "!".
Proof.
  intros Hhere. destruct (JS.indexOf_is_0 pattern_ "!") eqn:E.
  - now apply addPathToPattern_negated.
  - now apply addPathToPattern_positive.
Qed.

(** Rooting a negated pattern roots the pattern under the marker. *)
Lemma addPathToPattern_strip (here sanitisedPath pattern_ : string) :
  JS.indexOf_is_0 pattern_ "!" = false ->
  JS.substring1 (addPathToPattern here sanitisedPath (String "!" pattern_))
  = addPathToPattern here sanitisedPath pattern_.
Proof.
  intros H. unfold addPathToPattern.
  rewrite positivePattern_negated, (positivePattern_positive _ H).
  rewrite String.eqb_refl.
  assert (String.eqb pattern_ (String "!" pattern_) = false) as ->
      by (apply String.eqb_neq, string_cons_neq).
  destruct (Nat.ltb 1 _); cbn [negb String.append]; now rewrite substring1_cons.
Qed.

(** X19: rooting keeps the polarity of every pattern, so that classifying
    the rooted patterns is rooting the classified ones: for the positive
    patterns always, for the negative ones when no pattern begins with two
    negation markers. *)
Theorem addPathToPatterns_keeps_polarity (here rootPath : string) (patterns : list string) :
  Path.isAbsolute here = true ->
  map negated (addPathToPatterns here rootPath patterns) = map negated patterns
  /\ positivePatterns (addPathToPatterns here rootPath patterns)
     = addPathToPatterns here rootPath (positivePatterns patterns)
  /\ (Forall (fun pattern_ => begins_with "!!" pattern_ = false) patterns ->
      negativePatterns (addPathToPatterns here rootPath patterns)
      = addPathToPatterns here rootPath (negativePatterns patterns)).
Proof.
  intros Hhere.
  unfold addPathToPatterns, positivePatterns, negativePatterns, negated.
  repeat split.
  - rewrite map_map. apply map_ext. intros p. now apply addPathToPattern_polarity.
  - induction patterns as [|p l IH]; cbn [map filter]; [reflexivity|].
    rewrite (addPathToPattern_polarity _ _ _ Hhere).
    destruct (JS.indexOf_is_0 p "!"); cbn [negb map]; [exact IH | now rewrite IH].
  - intros H. induction H as [|p l Hp _ IH]; cbn [map filter]; [reflexivity|].
    rewrite (addPathToPattern_polarity _ _ _ Hhere).
    destruct (JS.indexOf_is_0 p "!") eqn:E; [|exact IH].
    apply indexOf_is_0_char in E. destruct E as [q ->].
    cbn [map]. rewrite substring1_cons, IH. f_equal.
    apply addPathToPattern_strip.
    destruct q as [|b t]; [reflexivity|].
    rewrite indexOf_is_0_head.
    cbn [begins_with] in Hp. rewrite Ascii.eqb_refl, andb_true_r in Hp.
    exact Hp.
Qed.

Lemma addPathToPatterns_keeps_polarity_witness :
  positivePatterns (addPathToPatterns "/" "/root" ["./src/**/*.js"; "!./src/lib/**"])
  = addPathToPatterns "/" "/root" (positivePatterns ["./src/**/*.js"; "!./src/lib/**"])
  /\ negativePatterns (addPathToPatterns "/" "/root" ["./src/**/*.js"; "!./src/lib/**"])
     = addPathToPatterns "/" "/root" (negativePatterns ["./src/**/*.js"; "!./src/lib/**"]).
Proof.
  destruct (addPathToPatterns_keeps_polarity
              "/" "/root" ["./src/**/*.js"; "!./src/lib/**"] eq_refl) as (_ & H1 & H2).
  split; [exact H1|]. apply H2. repeat constructor.
Defined.

Lemma resolve_shape (here : string) (args : list string) :
  Path.isAbsolute here = true ->
  exists resolvedPath,
    Path.resolve here args
    = String "/" (JS.join "/" (Path.normalize_segments false []
                                 (JS.split "/" resolvedPath))).
Proof.
  intros Hhere. unfold Path.resolve.
  pose proof (resolve_loop_absolute here (rev args) "" Hhere) as H.
  destruct (Path.resolve_loop (rev args ++ [here]) "") as [resolvedPath abs].
  cbn [snd] in H. subst abs. now exists resolvedPath.
Qed.

Lemma normalize_segments_Forall (P : string -> Prop) (allowAboveRoot : bool)
      (todo stack : list string) :
  Forall P stack -> Forall P todo ->
  Forall P (Path.normalize_segments allowAboveRoot stack todo).
Proof.
  intros Hs Ht. revert stack Hs.
  induction Ht as [|seg todo Hseg _ IH]; intros stack Hs;
    cbn [Path.normalize_segments].
  - now apply Forall_rev.
  - destruct (String.eqb seg "" || String.eqb seg "."); [now apply IH|].
    destruct (String.eqb seg "..").
    + destruct stack as [|top stack'].
      * destruct allowAboveRoot; apply IH; auto.
      * inversion Hs; subst.
        destruct (String.eqb top ".."); [destruct allowAboveRoot|]; apply IH; auto.
    + apply IH. now constructor.
Qed.

(** Below the root, normalising leaves no empty segment, no [.] and no
    [..]. *)
Lemma normalize_segments_clean (todo stack : list string) :
  Forall (fun seg => (String.eqb seg "" || String.eqb seg ".") = false
                     /\ String.eqb seg ".." = false) stack ->
  Forall (fun seg => (String.eqb seg "" || String.eqb seg ".") = false
                     /\ String.eqb seg ".." = false)
         (Path.normalize_segments false stack todo).
Proof.
  revert stack.
  induction todo as [|seg todo IH]; intros stack Hs; cbn [Path.normalize_segments].
  - now apply Forall_rev.
  - destruct (String.eqb seg "" || String.eqb seg ".") eqn:E1; [now apply IH|].
    destruct (String.eqb seg "..") eqn:E2.
    + destruct stack as [|top stack']; [now apply IH|]. inversion Hs; subst.
      destruct (String.eqb top ".."); apply IH; auto.
    + apply IH. constructor; auto.
Qed.

Lemma filter_all {A : Type} (f : A -> bool) (l : list A) :
  Forall (fun x => f x = true) l -> filter f l = l.
Proof.
  induction 1 as [|x l Hx _ IH]; cbn [filter]; [reflexivity|].
  now rewrite Hx, IH.
Qed.

(** An absolute path of normalised segments, with or without the negation
    marker in front, is a pattern that rooting leaves as it is. *)
Lemma addPathToPattern_rooted_fixed (here sanitisedPath marker : string)
      (segments : list string) :
  marker = "" \/ marker = "!" ->
  Forall (fun seg => contains (Ascii.eqb "/") seg = false) segments ->
  Forall (fun seg => (String.eqb seg "" || String.eqb seg ".") = false
                     /\ String.eqb seg ".." = false) segments ->
  addPathToPattern here sanitisedPath (marker ++ String "/" (JS.join "/" segments))
  = (marker ++ String "/" (JS.join "/" segments))%string.
Proof.
  intros Hmarker Hfree Hclean.
  remember (JS.join "/" segments) as J eqn:HJ.
  assert (positivePattern (marker ++ String "/" J) = String "/" J
          /\ negation_marker (marker ++ String "/" J) = marker) as [Hpos Hmark].
  { unfold negation_marker.
    destruct Hmarker as [-> | ->]; cbn [String.append].
    - rewrite positivePattern_positive by (now rewrite indexOf_is_0_head).
      now rewrite indexOf_is_0_head.
    - now rewrite positivePattern_negated, indexOf_is_0_head. }
  assert (contains (Ascii.eqb "/") (positivePattern (marker ++ String "/" J)) = true)
    as Hmulti.
  { rewrite Hpos. unfold contains. cbn [list_ascii_of_string existsb].
    now rewrite Ascii.eqb_refl. }
  rewrite (addPathToPattern_multi _ _ _ Hmulti). cbn zeta. rewrite Hpos, Hmark.
  f_equal. cbn [JS.split]. rewrite Ascii.eqb_refl. cbn [nth String.eqb].
  subst J. destruct segments as [|second others]; [reflexivity|].
  rewrite (split_join "/" _ Hfree) by discriminate.
  cbn [nth JS.slice skipn].
  rewrite (resolve_absolute_segments
             here sanitisedPath (String "/" (JS.join "/" (second :: others)))
             second others).
  - cbn [JS.split]. rewrite Ascii.eqb_refl.
    rewrite (split_join "/" _ Hfree) by discriminate.
    change (naming_segments ("" :: second :: others))
      with (naming_segments (second :: others)).
    unfold naming_segments. rewrite filter_all; [reflexivity|].
    eapply Forall_impl; [|exact Hclean].
    intros seg [H _]. now rewrite H.
  - cbn [JS.split]. rewrite Ascii.eqb_refl.
    now rewrite (split_join "/" _ Hfree) by discriminate.
  - unfold plain_segments. apply forallb_forall. intros seg Hseg.
    rewrite Forall_forall in Hclean. destruct (Hclean _ Hseg) as [H1 H2].
    apply orb_false_iff in H1. destruct H1 as [H1 _]. now rewrite H1, H2.
Qed.

(** X20: rooted patterns are fixed points of rooting.  Rooting the result
    of [addPathToPatterns] again, against any root and in any working
    directory, changes nothing: a pattern with a separator has become an
    absolute normalised path, which is rooted at the filesystem root, and
    one without is never touched. *)
Theorem addPathToPatterns_idempotent
        (here here' rootPath rootPath' : string) (patterns : list string) :
  Path.isAbsolute here = true ->
  addPathToPatterns here' rootPath' (addPathToPatterns here rootPath patterns)
  = addPathToPatterns here rootPath patterns.
Proof.
  intros Hhere. unfold addPathToPatterns. rewrite map_map. apply map_ext.
  intros p.
  destruct (contains (Ascii.eqb "/") (positivePattern p)) eqn:E.
  - rewrite (addPathToPattern_multi here _ _ E). cbn zeta.
    match goal with
    | |- context [Path.resolve here ?a] =>
        destruct (resolve_shape here a Hhere) as [resolvedPath ->]
    end.
    apply addPathToPattern_rooted_fixed.
    + unfold negation_marker. destruct (JS.indexOf_is_0 p "!"); auto.
    + apply normalize_segments_Forall; [constructor | apply split_separator_free].
    + apply normalize_segments_clean. constructor.
  - rewrite (addPathToPattern_single here _ _ E).
    now apply addPathToPattern_single.
Qed.

Lemma addPathToPatterns_idempotent_witness :
  addPathToPatterns "/elsewhere" "d:\other"
    (addPathToPatterns "/" "c:\root" ["./src/../lib/*.js"; "!tests/**"; "*.md"])
  = addPathToPatterns "/" "c:\root" ["./src/../lib/*.js"; "!tests/**"; "*.md"].
Proof.
  apply (addPathToPatterns_idempotent "/" "/elsewhere" "c:\root" "d:\other").
  reflexivity.
Defined.
